(** * election_events: check-in ledger, access control and voter lookup

    A shallow embedding of the request handlers of
    [src/routes/participants.ts] and [src/routes/events.ts] and of the
    TypeORM entities they persist ([Event], [Participant], [CheckInLog],
    [User]).

    Conventions of the embedding.
    - A uuid is an opaque identifier; it is represented by a number and the
      store hands out fresh ones from a counter.  An identifier that comes
      with a request is a text, which a [uuid] column reads as a uuid or
      refuses.
    - A JSON body field that the handlers only test with [!x] and then use
      as a string is an [option string]: [None] is an absent field, and the
      empty string is the other falsy value.
    - Every [await] on a repository is one atomic storage operation.  A
      storage operation either succeeds or throws; the handlers' outer
      [try/catch] turns every throw into a 500 response.
    - Times are milliseconds on the local wall clock of the server. *)

From Stdlib Require Import List String ZArith NArith Bool Lia.
From Stdlib Require Import Sorted Permutation.
Import ListNotations.

Local Open Scope string_scope.
Local Open Scope list_scope.
Local Open Scope N_scope.

(** ** Basic values *)

Definition uuid := N.

(** A JavaScript [Date]: a time value, or the Invalid Date ([NaN]). *)
Inductive JsDate :=
| TimeValue (t : Z)
| InvalidDate.

Definition isNaN (d : JsDate) : bool :=
  match d with
  | TimeValue _ => false
  | InvalidDate => true
  end.

(** A date string of a request body.  [new Date(s)] is the engine's parser
    (implementation-defined outside the ISO format), so the value carries
    the engine's answer next to the text. *)
Record DateText := {
  text : string;
  parsed : JsDate
}.

Definition newDate (d : DateText) : JsDate := parsed d.

(** An identifier as a request gives it, in its body or in its path: a
    text.  A query on a [uuid] column reads the text as a uuid, or throws
    ("invalid input syntax for type uuid") when the text has not the form
    of one. *)
Inductive IdText :=
| Uuid (id : uuid)
| NotUuid (text : string).

(** [!!id] for an identifier-or-undefined value; a text of the form of a
    uuid is not empty. *)
Definition truthyId (o : option IdText) : bool :=
  match o with
  | Some (Uuid _) => true
  | Some (NotUuid text) => negb (text =? "")%string
  | None => false
  end.

Definition msPerDay : Z := 86400000.

(** A column of type [date].  The driver writes a [Date] as the text of its
    calendar day, year first, and the column keeps that day, without the
    time.  The day 0001-01-01 is the first whose text the database reads:
    it has no year 0, and the text of an earlier year is no date. *)
Definition firstDay : Z := (-62135596800000)%Z.

Definition isDate (d : JsDate) : bool :=
  match d with
  | TimeValue t => (firstDay <=? t)%Z
  | InvalidDate => false
  end.

Definition dateOnly (d : JsDate) : JsDate :=
  match d with
  | TimeValue t => TimeValue (t - t mod msPerDay)%Z
  | InvalidDate => InvalidDate
  end.

(** [!!s] for a string-or-undefined value. *)
Definition truthy (o : option string) : bool :=
  match o with
  | Some s => negb (s =? "")%string
  | None => false
  end.

(** [x || null] for a string-or-undefined value. *)
Definition orNull (o : option string) : option string :=
  if truthy o then o else None.

Definition fits (n : nat) (s : string) : bool := Nat.leb (String.length s) n.

Definition fitsOpt (n : nat) (o : option string) : bool :=
  match o with
  | Some s => fits n s
  | None => true
  end.

(** ** Entities *)

Inductive UserRole := ADMIN | USER.

Module User.
(** [entities/User.ts]; only the columns the handlers read. *)
Record t := {
  id : uuid;
  role : UserRole;
  adminId : option uuid
}.
End User.

Module Event.
(** [entities/Event.ts].  [county] is declared non-null, yet the search
    handler still tests it for emptiness. *)
Record t := {
  eventId : uuid;
  eventName : string;
  county : string;
  constituency : option string;
  ward : option string;
  createdById : uuid
}.

(** The [varchar(255)] columns. *)
Definition columns_ok (e : t) : bool :=
  fits 255 (eventName e) && fits 255 (county e)
  && fitsOpt 255 (constituency e) && fitsOpt 255 (ward e).

Definition with_id (i : uuid) (e : t) : t :=
  {| eventId := i; eventName := eventName e; county := county e;
     constituency := constituency e; ward := ward e;
     createdById := createdById e |}.
End Event.

Module Participant.
(** [entities/Participant.ts], the version with [checkInLogs]. *)
Record t := {
  id : uuid;
  idNumber : string;
  name : string;
  dateOfBirth : JsDate;
  sex : string;
  county : option string;
  constituency : option string;
  ward : option string;
  pollingCenter : option string;
  eventId : uuid
}.

(** What the columns accept: [varchar(n)] lengths and, for the [date]
    column [dateOfBirth], a date. *)
Definition columns_ok (p : t) : bool :=
  fits 50 (idNumber p) && fits 255 (name p) && isDate (dateOfBirth p)
  && fits 20 (sex p)
  && fitsOpt 255 (county p) && fitsOpt 255 (constituency p)
  && fitsOpt 255 (ward p) && fitsOpt 255 (pollingCenter p).

Definition with_id (i : uuid) (p : t) : t :=
  {| id := i; idNumber := idNumber p; name := name p;
     dateOfBirth := dateOfBirth p; sex := sex p; county := county p;
     constituency := constituency p; ward := ward p;
     pollingCenter := pollingCenter p; eventId := eventId p |}.

(** The entity as its row keeps it: [dateOfBirth] without the time. *)
Definition stored (p : t) : t :=
  {| id := id p; idNumber := idNumber p; name := name p;
     dateOfBirth := dateOnly (dateOfBirth p); sex := sex p; county := county p;
     constituency := constituency p; ward := ward p;
     pollingCenter := pollingCenter p; eventId := eventId p |}.
End Participant.

Module CheckInLog.
(** [entities/CheckInLog.ts]. *)
Record t := {
  id : uuid;
  participantId : uuid;
  eventId : uuid;
  checkedInById : uuid;
  checkInDate : Z;
  checkedInAt : Z
}.

Definition with_id (i : uuid) (l : t) : t :=
  {| id := i; participantId := participantId l; eventId := eventId l;
     checkedInById := checkedInById l; checkInDate := checkInDate l;
     checkedInAt := checkedInAt l |}.

(** The columns of [@Index(['participantId', 'eventId', 'checkInDate'],
    { unique: true })]. *)
Definition key (l : t) : uuid * uuid * Z :=
  (participantId l, eventId l, checkInDate l).

Definition has_key (pid eid : uuid) (day : Z) (l : t) : bool :=
  (participantId l =? pid) && (eventId l =? eid) && (checkInDate l =? day)%Z.
End CheckInLog.

(** ** Access control: [checkEventAccess] *)

Definition checkEventAccess (event : Event.t) (user : User.t) : bool :=
  match User.role user with
  | ADMIN => Event.createdById event =? User.id user
  | USER =>
      match User.adminId user with
      | None => false
      | Some a => Event.createdById event =? a
      end
  end.

(** ** The persistent store

    The three tables the handlers touch.  The [users] table belongs to the
    authentication boundary: the account of a request is loaded there and
    reaches the handlers as [req.user]. *)

Inductive DbError :=
| UniqueViolation
| ForeignKeyViolation
| InvalidValue.

Inductive Result (A : Type) :=
| Ok (a : A)
| Err (e : DbError).

Arguments Ok {A} a.
Arguments Err {A} e.

Definition bind {A B : Type} (r : Result A) (k : A -> Result B) : Result B :=
  match r with
  | Ok a => k a
  | Err e => Err e
  end.

Notation "x <- c ;; k" := (bind c (fun x => k))
  (at level 61, c at next level, right associativity).

Record Store := {
  events : list Event.t;
  participants : list Participant.t;
  checkInLogs : list CheckInLog.t;
  nextId : uuid
}.

Definition emptyStore : Store :=
  {| events := []; participants := []; checkInLogs := []; nextId := 1 |}.

(** [eventRepository.findOne({ where: { eventId } })] *)
Definition findEvent (eventId : uuid) (st : Store) : option Event.t :=
  find (fun e => Event.eventId e =? eventId) (events st).

(** [participantRepository.findOne({ where: { eventId, idNumber } })] *)
Definition findParticipant (eventId : uuid) (idNumber : string) (st : Store)
  : option Participant.t :=
  find (fun p => (Participant.eventId p =? eventId)
                 && (Participant.idNumber p =? idNumber)%string)
       (participants st).

(** [checkInLogRepository.findOne({ where: { participantId, eventId,
    checkInDate } })] *)
Definition findCheckIn (participantId eventId : uuid) (day : Z) (st : Store)
  : option CheckInLog.t :=
  find (CheckInLog.has_key participantId eventId day) (checkInLogs st).

Definition hasEvent (eventId : uuid) (st : Store) : bool :=
  existsb (fun e => Event.eventId e =? eventId) (events st).

Definition hasParticipant (id : uuid) (st : Store) : bool :=
  existsb (fun p => Participant.id p =? id) (participants st).

(** [save] of a new event: the row gets a generated [eventId]. *)
Definition insertEvent (e : Event.t) (st : Store) : Result (Store * Event.t) :=
  if negb (Event.columns_ok e) then Err InvalidValue
  else
    let e' := Event.with_id (nextId st) e in
    Ok ({| events := events st ++ [e'];
           participants := participants st;
           checkInLogs := checkInLogs st;
           nextId := N.succ (nextId st) |}, e').

(** [save] of a participant made by [create]: an INSERT.  The row gets a
    generated [id]; [eventId] is a foreign key into [events].  The result
    is the participant as the table keeps it. *)
Definition insertParticipant (p : Participant.t) (st : Store)
  : Result (Store * Participant.t) :=
  if negb (Participant.columns_ok p) then Err InvalidValue
  else if negb (hasEvent (Participant.eventId p) st) then Err ForeignKeyViolation
  else
    let p' := Participant.with_id (nextId st) (Participant.stored p) in
    Ok ({| events := events st;
           participants := participants st ++ [p'];
           checkInLogs := checkInLogs st;
           nextId := N.succ (nextId st) |}, p').

(** [save] of a participant that was loaded from the table: an UPDATE of
    the row with its [id].  No operation of the repository deletes a
    participant, so the row is there. *)
Definition updateParticipant (p : Participant.t) (st : Store) : Result Store :=
  if negb (Participant.columns_ok p) then Err InvalidValue
  else if negb (hasEvent (Participant.eventId p) st) then Err ForeignKeyViolation
  else
    let p' := Participant.stored p in
    Ok {| events := events st;
          participants :=
            map (fun q => if Participant.id q =? Participant.id p' then p' else q)
                (participants st);
          checkInLogs := checkInLogs st;
          nextId := nextId st |}.

(** [save] of a check-in log made by [create]: an INSERT, subject to the
    unique index on (participantId, eventId, checkInDate) and to the
    foreign keys [participantId] and [eventId]. *)
Definition insertCheckInLog (l : CheckInLog.t) (st : Store)
  : Result (Store * CheckInLog.t) :=
  if existsb (CheckInLog.has_key (CheckInLog.participantId l)
                (CheckInLog.eventId l) (CheckInLog.checkInDate l))
       (checkInLogs st)
  then Err UniqueViolation
  else if negb (hasParticipant (CheckInLog.participantId l) st) then Err ForeignKeyViolation
  else if negb (hasEvent (CheckInLog.eventId l) st) then Err ForeignKeyViolation
  else
    let l' := CheckInLog.with_id (nextId st) l in
    Ok ({| events := events st;
           participants := participants st;
           checkInLogs := checkInLogs st ++ [l'];
           nextId := N.succ (nextId st) |}, l').

(** *** Foreign keys on delete

    What each [@ManyToOne] relation declares for the deletion of the row it
    points to.  A relation without an [onDelete] option gets the database
    default, which refuses the deletion while a referencing row exists. *)

Inductive OnDelete := CASCADE | NO_ACTION.

Record Schema := {
  Participant_event : OnDelete;
  CheckInLog_participant : OnDelete;
  CheckInLog_event : OnDelete
}.

(** The relations as the entities declare them: [Participant.event] has no
    [onDelete]; [CheckInLog.participant] and [CheckInLog.event] have
    [onDelete: 'CASCADE']. *)
Definition schema : Schema :=
  {| Participant_event := NO_ACTION;
     CheckInLog_participant := CASCADE;
     CheckInLog_event := CASCADE |}.

(** The referencing rows of one relation when the rows they point to go. *)
Definition onDeleteRows {A : Type} (action : OnDelete) (refers : A -> bool)
    (rows : list A) : Result (list A) :=
  match action with
  | CASCADE => Ok (filter (fun r => negb (refers r)) rows)
  | NO_ACTION =>
      if existsb refers rows then Err ForeignKeyViolation else Ok rows
  end.

(** [eventRepository.remove(event)]: one DELETE on [events], with the
    foreign keys of the given schema. *)
Definition removeEventWith (sch : Schema) (eventId : uuid) (st : Store)
  : Result Store :=
  ps <- onDeleteRows (Participant_event sch)
          (fun p => Participant.eventId p =? eventId) (participants st) ;;
  let deleted (pid : uuid) :=
    existsb (fun p => (Participant.id p =? pid)
                      && (Participant.eventId p =? eventId))
            (participants st)
    && negb (existsb (fun p => Participant.id p =? pid) ps) in
  ls <- onDeleteRows (CheckInLog_participant sch)
          (fun l => deleted (CheckInLog.participantId l)) (checkInLogs st) ;;
  ls' <- onDeleteRows (CheckInLog_event sch)
          (fun l => CheckInLog.eventId l =? eventId) ls ;;
  Ok {| events := filter (fun e => negb (Event.eventId e =? eventId)) (events st);
        participants := ps;
        checkInLogs := ls';
        nextId := nextId st |}.

Definition removeEvent : uuid -> Store -> Result Store := removeEventWith schema.

(** ** Responses *)

Inductive Payload :=
| NoPayload
| EventPayload (event : Event.t)
| CheckInPayload (checkIn : CheckInLog.t) (participant : Participant.t)
| VoterPayload (voterInfo : string).

(** [res.status(code).json({ message, ... })] *)
Record Response := {
  status : N;
  message : string;
  payload : Payload
}.

Definition reply (code : N) (msg : string) : Response :=
  {| status := code; message := msg; payload := NoPayload |}.

Definition internalServerError : Response := reply 500 "Internal server error".

(** ** [POST /participants/search] *)

Module SearchBody.
Record t := {
  eventId : option IdText;
  idNumber : option string
}.
End SearchBody.

(** The [filters] object handed to [lookupVoter]; an optional property that
    was never assigned is [None]. *)
Record Filters := {
  county : string;
  constituency : option string;
  ward : option string
}.

(** Lines 66-79: [county] always, [constituency] and [ward] each under its
    own [if]. *)
Definition filtersOf (event : Event.t) : Filters :=
  {| county := Event.county event;
     constituency := orNull (Event.constituency event);
     ward := orNull (Event.ward event) |}.

(** What [await lookupVoter(idNumber, filters)] can do: resolve to a record,
    resolve to nothing, or throw. *)
Inductive Lookup :=
| Match (voterInfo : string)
| NoMatch
| LookupFailed.

(** [lookupVoter] of [services/voterLookup] is the external registry; the
    handler is a function of it. *)
Definition Gateway := string -> Filters -> Lookup.

(** The handler up to the gateway call: either it has answered, or it calls
    the gateway with these arguments. *)
Inductive SearchPlan :=
| Answer (r : Response)
| CallGateway (idNumber : string) (filters : Filters).

(** Line 33 answers a request without an [eventId] or an [idNumber]; the
    [findOne] of line 42 throws on an [eventId] that is no uuid, and the
    throw ends in the outer [catch] of lines 105-111. *)
Definition searchPlan (st : Store) (user : User.t) (body : SearchBody.t)
  : SearchPlan :=
  match SearchBody.eventId body, orNull (SearchBody.idNumber body) with
  | Some (Uuid eventId), Some idNumber =>
      match findEvent eventId st with
      | None => Answer (reply 404 "Event not found")
      | Some event =>
          if negb (checkEventAccess event user)
          then Answer (reply 403 "Access denied to this event")
          else if (Event.county event =? "")%string
          then Answer (reply 400 "Event must have a county to perform voter lookup")
          else CallGateway idNumber (filtersOf event)
      end
  | Some (NotUuid text), Some idNumber =>
      if (text =? "")%string
      then Answer (reply 400 "Event ID and ID number are required")
      else Answer internalServerError
  | _, _ => Answer (reply 400 "Event ID and ID number are required")
  end.

Definition search (lookupVoter : Gateway) (st : Store) (user : User.t)
    (body : SearchBody.t) : Response :=
  match searchPlan st user body with
  | Answer r => r
  | CallGateway idNumber filters =>
      match lookupVoter idNumber filters with
      | Match voterInfo =>
          {| status := 200; message := "Participant found";
             payload := VoterPayload voterInfo |}
      | NoMatch => reply 404 "Participant not found"
      | LookupFailed => reply 500 "Error looking up voter information"
      end
  end.

(** ** [POST /participants/checkin] *)

Module Checkin.
Record body := {
  eventId : option IdText;
  idNumber : option string;
  name : option string;
  dateOfBirth : option DateText;
  sex : option string;
  county : option string;
  constituency : option string;
  ward : option string;
  pollingCenter : option string
}.

(** The five fields the handler requires, once they passed the test and
    the [uuid] column read the [eventId]. *)
Record fields := {
  f_eventId : uuid;
  f_idNumber : string;
  f_name : string;
  f_dateOfBirth : DateText;
  f_sex : string
}.

Definition truthyDate (o : option DateText) : bool :=
  match o with
  | Some d => negb (text d =? "")%string
  | None => false
  end.

(** Line 133: [!eventId || !idNumber || !name || !dateOfBirth || !sex]. *)
Definition missing (b : body) : bool :=
  negb (truthyId (eventId b)) || negb (truthy (idNumber b))
  || negb (truthy (name b)) || negb (truthyDate (dateOfBirth b))
  || negb (truthy (sex b)).

(** The five fields of a request that passes the test of line 133 and
    whose [eventId] is a uuid; [None] for any other request. *)
Definition required (b : body) : option fields :=
  match eventId b, orNull (idNumber b), orNull (name b), dateOfBirth b,
        orNull (sex b) with
  | Some (Uuid e), Some i, Some n, Some d, Some s =>
      if (text d =? "")%string then None
      else Some {| f_eventId := e; f_idNumber := i; f_name := n;
                   f_dateOfBirth := d; f_sex := s |}
  | _, _, _, _, _ => None
  end.
End Checkin.

(** The two clock reads of the handler: [new Date()] of line 196 and of
    line 220. *)
Record Clock := {
  tToday : Z;
  tCheckedInAt : Z
}.

(** [d.setHours(0, 0, 0, 0)] *)
Definition setHours0 (t : Z) : Z := (t - t mod msPerDay)%Z.

(** Lines 171-181: [participantRepository.create({...})]; the [id] is not
    assigned before the row is saved. *)
Definition createParticipant (b : Checkin.body) (f : Checkin.fields)
  : Participant.t :=
  {| Participant.id := 0;
     Participant.idNumber := Checkin.f_idNumber f;
     Participant.name := Checkin.f_name f;
     Participant.dateOfBirth := newDate (Checkin.f_dateOfBirth f);
     Participant.sex := Checkin.f_sex f;
     Participant.county := orNull (Checkin.county b);
     Participant.constituency := orNull (Checkin.constituency b);
     Participant.ward := orNull (Checkin.ward b);
     Participant.pollingCenter := orNull (Checkin.pollingCenter b);
     Participant.eventId := Checkin.f_eventId f |}.

(** Lines 185-191: the assignments to the loaded participant. *)
Definition setDemographics (b : Checkin.body) (f : Checkin.fields)
    (participant : Participant.t) : Participant.t :=
  {| Participant.id := Participant.id participant;
     Participant.idNumber := Participant.idNumber participant;
     Participant.name := Checkin.f_name f;
     Participant.dateOfBirth := newDate (Checkin.f_dateOfBirth f);
     Participant.sex := Checkin.f_sex f;
     Participant.county := orNull (Checkin.county b);
     Participant.constituency := orNull (Checkin.constituency b);
     Participant.ward := orNull (Checkin.ward b);
     Participant.pollingCenter := orNull (Checkin.pollingCenter b);
     Participant.eventId := Participant.eventId participant |}.

(** Lines 169-193: create and save, or update and save.  Of the saved
    participant the handler goes on to read the [id], the [idNumber] and
    the [name]; the result is the participant as the table keeps it. *)
Definition saveResolved (b : Checkin.body) (f : Checkin.fields)
    (found : option Participant.t) (st : Store)
  : Result (Store * Participant.t) :=
  match found with
  | None => insertParticipant (createParticipant b f) st
  | Some participant =>
      let participant' := setDemographics b f participant in
      st' <- updateParticipant participant' st ;;
      Ok (st', Participant.stored participant')
  end.

(** Lines 161-193: find or create the participant. *)
Definition resolveParticipant (b : Checkin.body) (f : Checkin.fields)
    (st : Store) : Result (Store * Participant.t) :=
  saveResolved b f (findParticipant (Checkin.f_eventId f) (Checkin.f_idNumber f) st) st.

(** Lines 215-221: [checkInLogRepository.create({...})]. *)
Definition createCheckInLog (participant : Participant.t) (f : Checkin.fields)
    (user : User.t) (today : Z) (clk : Clock) : CheckInLog.t :=
  {| CheckInLog.id := 0;
     CheckInLog.participantId := Participant.id participant;
     CheckInLog.eventId := Checkin.f_eventId f;
     CheckInLog.checkedInById := User.id user;
     CheckInLog.checkInDate := today;
     CheckInLog.checkedInAt := tCheckedInAt clk |}.

Definition created (checkIn : CheckInLog.t) (participant : Participant.t)
  : Response :=
  {| status := 201; message := "Participant checked in successfully";
     payload := CheckInPayload checkIn participant |}.

Definition requiredMessage : string :=
  "Event ID, ID number, name, date of birth, and sex are required".

Definition alreadyCheckedIn : Response := reply 400 "Voter already checked in today".

(** The handler run from its first line to its response with no other
    request in between.  A request that passes the test of line 133 with
    an [eventId] that is no uuid makes the [findOne] of line 143 throw. *)
Definition checkin (st : Store) (user : User.t) (b : Checkin.body)
    (clk : Clock) : Store * Response :=
  if Checkin.missing b then (st, reply 400 requiredMessage)
  else
    match Checkin.required b with
    | None => (st, internalServerError)
    | Some f =>
        match findEvent (Checkin.f_eventId f) st with
        | None => (st, reply 404 "Event not found")
        | Some event =>
            if negb (checkEventAccess event user)
            then (st, reply 403 "Access denied to this event")
            else
              match resolveParticipant b f st with
              | Err _ => (st, internalServerError)
              | Ok (st1, participant) =>
                  let today := setHours0 (tToday clk) in
                  match findCheckIn (Participant.id participant)
                          (Checkin.f_eventId f) today st1 with
                  | Some _ => (st1, alreadyCheckedIn)
                  | None =>
                      match insertCheckInLog
                              (createCheckInLog participant f user today clk) st1 with
                      | Err _ => (st1, internalServerError)
                      | Ok (st2, checkInLog) => (st2, created checkInLog participant)
                      end
                  end
              end
        end
    end.

(** *** The handler between its awaits

    Requests are handled concurrently: the handler of one request runs
    until its next [await] on a repository, and the storage operations of
    other requests may come in between.  A program point records where a
    handler waits and the local variables it holds there. *)

Inductive Pc :=
| AtStart
| AtFindParticipant (f : Checkin.fields)
| AtSaveParticipant (f : Checkin.fields) (found : option Participant.t)
| AtFindCheckIn (f : Checkin.fields) (participant : Participant.t)
| AtSaveCheckIn (f : Checkin.fields) (participant : Participant.t) (today : Z)
| Finished (r : Response).

(** One check-in request: the account, the body, and what the clock will
    say when the handler reads it. *)
Record Attempt := {
  user : User.t;
  body : Checkin.body;
  clock : Clock
}.

(** The handler from one program point to the next: one storage operation. *)
Definition checkinStep (a : Attempt) (pc : Pc) (st : Store) : Store * Pc :=
  match pc with
  | AtStart =>
      if Checkin.missing (body a)
      then (st, Finished (reply 400 requiredMessage))
      else
        match Checkin.required (body a) with
        | None => (st, Finished internalServerError)
        | Some f =>
            match findEvent (Checkin.f_eventId f) st with
            | None => (st, Finished (reply 404 "Event not found"))
            | Some event =>
                if negb (checkEventAccess event (user a))
                then (st, Finished (reply 403 "Access denied to this event"))
                else (st, AtFindParticipant f)
            end
        end
  | AtFindParticipant f =>
      (st, AtSaveParticipant f
             (findParticipant (Checkin.f_eventId f) (Checkin.f_idNumber f) st))
  | AtSaveParticipant f found =>
      match saveResolved (body a) f found st with
      | Err _ => (st, Finished internalServerError)
      | Ok (st', participant) => (st', AtFindCheckIn f participant)
      end
  | AtFindCheckIn f participant =>
      let today := setHours0 (tToday (clock a)) in
      match findCheckIn (Participant.id participant) (Checkin.f_eventId f)
              today st with
      | Some _ => (st, Finished alreadyCheckedIn)
      | None => (st, AtSaveCheckIn f participant today)
      end
  | AtSaveCheckIn f participant today =>
      match insertCheckInLog
              (createCheckInLog participant f (user a) today (clock a)) st with
      | Err _ => (st, Finished internalServerError)
      | Ok (st', checkInLog) => (st', Finished (created checkInLog participant))
      end
  | Finished r => (st, Finished r)
  end.

(** The shared store and the requests in flight, each at its program
    point. *)
Record System := {
  store : Store;
  threads : list (Attempt * Pc)
}.

Fixpoint setNth {A : Type} (i : nat) (x : A) (l : list A) : list A :=
  match l, i with
  | [], _ => []
  | _ :: l', O => x :: l'
  | y :: l', S i' => y :: setNth i' x l'
  end.

(** Request [i] runs to its next await. *)
Definition stepAttempt (s : System) (i : nat) : System :=
  match nth_error (threads s) i with
  | Some (a, pc) =>
      let (st', pc') := checkinStep a pc (store s) in
      {| store := st'; threads := setNth i (a, pc') (threads s) |}
  | None => s
  end.

(** A schedule names, in order, the request that runs next. *)
Definition runSchedule (schedule : list nat) (s : System) : System :=
  fold_left stepAttempt schedule s.

Definition start (attempts : list Attempt) (st : Store) : System :=
  {| store := st; threads := map (fun a => (a, AtStart)) attempts |}.

Definition responseOf (t : Attempt * Pc) : option Response :=
  match snd t with
  | Finished r => Some r
  | _ => None
  end.






(** ** [routes/events.ts] *)

Module EventBody.
Record t := {
  eventName : option string;
  county : option string;
  constituency : option string;
  ward : option string
}.
End EventBody.

(** Modelled from the spec: the [requireAdmin] middleware of
    [middleware/auth], which is not among the sources.  The spec gives
    [POST /events] as "Owner only" and [DELETE /events/{eventId}] as
    "creating Owner only ... 403 otherwise": the middleware answers 403
    unless the account has the ADMIN role.  The text of its message is not
    specified. *)
Definition requireAdmin (user : User.t) : option Response :=
  match User.role user with
  | ADMIN => None
  | USER => Some (reply 403 "Forbidden")
  end.

(** [router.post('/')] *)
Definition createEvent (st : Store) (user : User.t) (b : EventBody.t)
  : Store * Response :=
  match requireAdmin user with
  | Some r => (st, r)
  | None =>
      match orNull (EventBody.eventName b), orNull (EventBody.county b) with
      | Some eventName, Some county =>
          match insertEvent
                  {| Event.eventId := 0;
                     Event.eventName := eventName;
                     Event.county := county;
                     Event.constituency := orNull (EventBody.constituency b);
                     Event.ward := orNull (EventBody.ward b);
                     Event.createdById := User.id user |} st with
          | Err _ => (st, internalServerError)
          | Ok (st', event) =>
              (st', {| status := 201; message := "Event created successfully";
                       payload := EventPayload event |})
          end
      | _, _ => (st, reply 400 "Event name and county are required")
      end
  end.

(** [router.delete('/:eventId')]; [findOne] throws on an [eventId] that
    is no uuid. *)
Definition deleteEvent (st : Store) (user : User.t) (eventId : IdText)
  : Store * Response :=
  match requireAdmin user with
  | Some r => (st, r)
  | None =>
      match eventId with
      | NotUuid _ => (st, internalServerError)
      | Uuid eventId =>
          match findEvent eventId st with
          | None => (st, reply 404 "Event not found")
          | Some event =>
              if negb (Event.createdById event =? User.id user)
              then (st, reply 403 "Access denied. You can only delete events you created.")
              else
                match removeEvent (Event.eventId event) st with
                | Err _ => (st, internalServerError)
                | Ok st' => (st', reply 200 "Event deleted successfully")
                end
          end
      end
  end.

(** ** Reachable stores

    A store is reachable when a sequence of storage operations builds it
    from the empty one.  The operations are those of the repositories, with
    arbitrary rows: a caller is not assumed to check anything first. *)

Inductive StoreOp :=
| InsertEvent (e : Event.t)
| InsertParticipant (p : Participant.t)
| UpdateParticipant (p : Participant.t)
| InsertCheckInLog (l : CheckInLog.t)
| RemoveEvent (eventId : uuid).

Definition runOp (op : StoreOp) (st : Store) : Result Store :=
  match op with
  | InsertEvent e => r <- insertEvent e st ;; Ok (fst r)
  | InsertParticipant p => r <- insertParticipant p st ;; Ok (fst r)
  | UpdateParticipant p => updateParticipant p st
  | InsertCheckInLog l => r <- insertCheckInLog l st ;; Ok (fst r)
  | RemoveEvent eventId => removeEvent eventId st
  end.

(** An operation that throws leaves the store as it was. *)
Definition applyOp (st : Store) (op : StoreOp) : Store :=
  match runOp op st with
  | Ok st' => st'
  | Err _ => st
  end.

Definition runOps (ops : list StoreOp) (st : Store) : Store :=
  fold_left applyOp ops st.

Definition reachable (st : Store) : Prop :=
  exists ops, runOps ops emptyStore = st.

(** What every reachable store satisfies: the unique index of
    [check_in_logs], the foreign key of a log to its participant, and that
    the identifiers in use were handed out by the store. *)
Record wf (st : Store) : Prop := {
  wf_unique : NoDup (map CheckInLog.key (checkInLogs st));
  wf_log_participant :
    forall l, In l (checkInLogs st) ->
              hasParticipant (CheckInLog.participantId l) st = true;
  wf_participant_id :
    forall p, In p (participants st) -> Participant.id p < nextId st
}.

(** ** Concurrent check-ins for one participant, event and day

    The invariant of a system whose requests are all check-ins for the
    participant [pid] of [event], found under [idNumber], on [day]. *)

(** The rows of [check_in_logs] with the triple. *)
Definition rows (eventId pid : uuid) (day : Z) (st : Store) : nat :=
  List.length (filter (CheckInLog.has_key pid eventId day) (checkInLogs st)).





(** ** A worked scenario

    The accounts, the event and the requests of the scenario of the spec:
    owner O creates the event "Rally" in region "R1", and a person with
    identity number "123" is checked in. *)

Definition owner : User.t :=
  {| User.id := 100; User.role := ADMIN; User.adminId := None |}.

Definition clerk : User.t :=
  {| User.id := 101; User.role := USER; User.adminId := Some 100 |}.

Definition otherOwner : User.t :=
  {| User.id := 200; User.role := ADMIN; User.adminId := None |}.

Definition rally : EventBody.t :=
  {| EventBody.eventName := Some "Rally"; EventBody.county := Some "R1";
     EventBody.constituency := None; EventBody.ward := None |}.

Definition rallyRow : Event.t :=
  {| Event.eventId := 0; Event.eventName := "Rally"; Event.county := "R1";
     Event.constituency := None; Event.ward := None; Event.createdById := 100 |}.

(** The store after [POST /events]: the event has identifier 1. *)
Definition stRally : Store := applyOp emptyStore (InsertEvent rallyRow).

Definition visit (name : string) (dateOfBirth : DateText) : Checkin.body :=
  {| Checkin.eventId := Some (Uuid 1);
     Checkin.idNumber := Some "123";
     Checkin.name := Some name;
     Checkin.dateOfBirth := Some dateOfBirth;
     Checkin.sex := Some "F";
     Checkin.county := Some "R1";
     Checkin.constituency := None;
     Checkin.ward := None;
     Checkin.pollingCenter := None |}.

Definition born1990 : DateText :=
  {| text := "1990-05-17"; parsed := TimeValue 642902400000 |}.

Definition born1991 : DateText :=
  {| text := "1991-05-17"; parsed := TimeValue 674438400000 |}.

Definition notADate : DateText :=
  {| text := "not-a-date"; parsed := InvalidDate |}.

Definition amina : Checkin.body := visit "Amina" born1990.
Definition aminah : Checkin.body := visit "Aminah W." born1991.

(** The required fields of the two bodies. *)
Definition aminaFields : Checkin.fields :=
  {| Checkin.f_eventId := 1; Checkin.f_idNumber := "123";
     Checkin.f_name := "Amina"; Checkin.f_dateOfBirth := born1990;
     Checkin.f_sex := "F" |}.

Definition aminahFields : Checkin.fields :=
  {| Checkin.f_eventId := 1; Checkin.f_idNumber := "123";
     Checkin.f_name := "Aminah W."; Checkin.f_dateOfBirth := born1991;
     Checkin.f_sex := "F" |}.




(** The event and the participant as stored. *)
Definition rallyEvent : Event.t := Event.with_id 1 rallyRow.

Definition aminaRow : Participant.t :=
  Participant.with_id 2 (createParticipant amina aminaFields).

(** A request for an event that does not exist, the same with a text that
    is no uuid as its eventId, and the same without a name. *)
Definition noSuchEvent : Checkin.body :=
  {| Checkin.eventId := Some (Uuid 99); Checkin.idNumber := Some "123";
     Checkin.name := Some "Amina"; Checkin.dateOfBirth := Some born1990;
     Checkin.sex := Some "F"; Checkin.county := None;
     Checkin.constituency := None; Checkin.ward := None;
     Checkin.pollingCenter := None |}.

Definition notAnEventId : Checkin.body :=
  {| Checkin.eventId := Some (NotUuid "99"); Checkin.idNumber := Some "123";
     Checkin.name := Some "Amina"; Checkin.dateOfBirth := Some born1990;
     Checkin.sex := Some "F"; Checkin.county := None;
     Checkin.constituency := None; Checkin.ward := None;
     Checkin.pollingCenter := None |}.

Definition noSuchEventNoName : Checkin.body :=
  {| Checkin.eventId := Some (Uuid 99); Checkin.idNumber := Some "123";
     Checkin.name := None; Checkin.dateOfBirth := Some born1990;
     Checkin.sex := Some "F"; Checkin.county := None;
     Checkin.constituency := None; Checkin.ward := None;
     Checkin.pollingCenter := None |}.

(** Day D, a little later on day D, and the day after. *)
Definition dayD : Clock :=
  {| tToday := 1700000000000; tCheckedInAt := 1700000000005 |}.

Definition laterOnDayD : Clock :=
  {| tToday := 1700000003000; tCheckedInAt := 1700000003007 |}.

Definition nextDay : Clock :=
  {| tToday := 1700086400000; tCheckedInAt := 1700086400009 |}.

(** The store after the first check-in: participant 2, log 3. *)
Definition stCheckedIn : Store := fst (checkin stRally clerk amina dayD).

(** The same store, built by the storage operations of the two requests. *)
Definition opsCheckedIn : list StoreOp :=
  [ InsertEvent rallyRow;
    InsertParticipant (createParticipant amina aminaFields);
    InsertCheckInLog (createCheckInLog aminaRow aminaFields clerk
                        (setHours0 (tToday dayD)) dayD) ].

(** Two requests for the same person on the day after, handled at the same
    time: each runs up to its insert before either inserts. *)
Definition nextDayLater : Clock :=
  {| tToday := 1700086403000; tCheckedInAt := 1700086403004 |}.

Definition race : list Attempt :=
  [ {| user := clerk; body := amina; clock := nextDay |};
    {| user := owner; body := aminah; clock := nextDayLater |} ].

Definition bothPastTheCheck : list nat := [0; 0; 0; 0; 1; 1; 1; 1]%nat.


Definition raceChecked : System := runSchedule bothPastTheCheck (start race stCheckedIn).
Definition raceInserted : System := stepAttempt raceChecked 0.
Definition raceEnded : System := stepAttempt raceInserted 1.

(** The participant as request 1 saved and holds it. *)
Definition aminahRow : Participant.t := setDemographics aminah aminahFields aminaRow.

(** The log request 0 inserts. *)
Definition nextDayLog : CheckInLog.t :=
  {| CheckInLog.id := 4; CheckInLog.participantId := 2;
     CheckInLog.eventId := 1; CheckInLog.checkedInById := 101;
     CheckInLog.checkInDate := 1700006400000;
     CheckInLog.checkedInAt := 1700086400009 |}.

(** Two first check-ins of the same person at the same time: each looks the
    participant up before either saves it. *)
Definition firstVisits : list Attempt :=
  [ {| user := clerk; body := amina; clock := dayD |};
    {| user := owner; body := aminah; clock := laterOnDayD |} ].

Definition bothPastTheLookup : list nat := [0; 0; 1; 1; 0; 1; 0; 0; 1; 1]%nat.

(** An event whose constituency is unset and whose ward is set. *)
Definition stWardOnly : Store :=
  applyOp emptyStore
    (InsertEvent
       {| Event.eventId := 0; Event.eventName := "Baraza"; Event.county := "R";
          Event.constituency := None; Event.ward := Some "L";
          Event.createdById := 100 |}).

Definition lookup123 : SearchBody.t :=
  {| SearchBody.eventId := Some (Uuid 1); SearchBody.idNumber := Some "123" |}.

(** ** The read routes

    A read route answers 200 with data, or refuses with a status and a
    message.  The name and email of an account that a route prints next to
    a row ([createdBy], [checkedInBy]) come from the [users] table of the
    authentication boundary; the rows below carry the account's id. *)

Inductive Outcome (A : Type) :=
| Data (a : A)
| Refused (r : Response).

Arguments Data {A} a.
Arguments Refused {A} r.

Definition statusOf {A : Type} (o : Outcome A) : N :=
  match o with
  | Data _ => 200
  | Refused r => status r
  end.

(** *** [GET /events], [GET /events/:eventId] of [routes/events.ts] *)

(** [find({ where: { createdById }, order: { createdAt: 'DESC' } })]: the
    table keeps its rows in the order they were created. *)
Definition eventsCreatedBy (creator : uuid) (st : Store) : list Event.t :=
  rev (filter (fun e => Event.createdById e =? creator) (events st)).

(** [router.get('/')], lines 207-264. *)
Definition getEvents (st : Store) (account : User.t) : Outcome (list Event.t) :=
  match User.role account with
  | ADMIN => Data (eventsCreatedBy (User.id account) st)
  | USER =>
      match User.adminId account with
      | None => Refused (reply 403 "User is not assigned to an admin")
      | Some a => Data (eventsCreatedBy a st)
      end
  end.

(** [router.get('/:eventId')], lines 266-324, with its own access test;
    [findOne] throws on an [eventId] that is no uuid. *)
Definition getEvent (st : Store) (account : User.t) (eventId : IdText)
  : Outcome Event.t :=
  match eventId with
  | NotUuid _ => Refused internalServerError
  | Uuid eventId =>
      match findEvent eventId st with
      | None => Refused (reply 404 "Event not found")
      | Some event =>
          let denied :=
            match User.role account with
            | ADMIN => negb (Event.createdById event =? User.id account)
            | USER =>
                match User.adminId account with
                | None => true
                | Some a => negb (Event.createdById event =? a)
                end
            end in
          if denied then Refused (reply 403 "Access denied") else Data event
      end
  end.

(** *** [GET /participants/event/:eventId] *)

(** One element of [participants] in the answer. *)
Record ParticipantEntry := {
  entryParticipant : Participant.t;
  entryCheckInLogs : list CheckInLog.t;
  totalCheckIns : nat
}.

(** The relation [checkInLogs] of a participant: the logs that point to it. *)
Definition logsOf (participantId : uuid) (st : Store) : list CheckInLog.t :=
  filter (fun l => CheckInLog.participantId l =? participantId) (checkInLogs st).

Definition entryOf (st : Store) (participant : Participant.t) : ParticipantEntry :=
  {| entryParticipant := participant;
     entryCheckInLogs := logsOf (Participant.id participant) st;
     totalCheckIns := List.length (logsOf (Participant.id participant) st) |}.

(** [router.get('/event/:eventId')], lines 250-317: the participants of the
    event, newest first, each with its logs; [findOne] throws on an
    [eventId] that is no uuid. *)
Definition getParticipants (st : Store) (account : User.t) (eventId : IdText)
  : Outcome (list ParticipantEntry) :=
  match eventId with
  | NotUuid _ => Refused internalServerError
  | Uuid eventId =>
      match findEvent eventId st with
      | None => Refused (reply 404 "Event not found")
      | Some event =>
          if negb (checkEventAccess event account)
          then Refused (reply 403 "Access denied to this event")
          else Data (map (entryOf st)
                       (rev (filter (fun p => Participant.eventId p =? eventId)
                               (participants st))))
      end
  end.

(** *** [GET /participants/event/:eventId/date/:date] *)

(** One element of [participants] in the answer: a log and the participant
    it points to. *)
Record CheckInEntry := {
  entryLog : CheckInLog.t;
  entryOfParticipant : Participant.t
}.

Record CheckInsOnDate := {
  count : nat;
  checkIns : list CheckInEntry
}.

(** [order: { checkedInAt: 'DESC' }].  The order of two logs with the same
    [checkedInAt] is the database's; here the later row comes first. *)
Fixpoint insertNewest (l : CheckInLog.t) (ls : list CheckInLog.t)
  : list CheckInLog.t :=
  match ls with
  | [] => [l]
  | x :: ls' =>
      if (CheckInLog.checkedInAt x <=? CheckInLog.checkedInAt l)%Z
      then l :: x :: ls'
      else x :: insertNewest l ls'
  end.

Definition newestFirst (ls : list CheckInLog.t) : list CheckInLog.t :=
  fold_right insertNewest [] ls.

(** [find({ where: { eventId, checkInDate }, order: ... })] *)
Definition checkInsOn (eventId : uuid) (day : Z) (st : Store)
  : list CheckInLog.t :=
  newestFirst
    (filter (fun l => (CheckInLog.eventId l =? eventId)
                      && (CheckInLog.checkInDate l =? day)%Z)
       (checkInLogs st)).

(** The [map] of lines 366-386 reads [log.participant.id]: it throws on a
    log whose participant is not there. *)
Fixpoint withParticipants (logs : list CheckInLog.t) (st : Store)
  : option (list CheckInEntry) :=
  match logs with
  | [] => Some []
  | l :: logs' =>
      match find (fun p => Participant.id p =? CheckInLog.participantId l)
              (participants st),
            withParticipants logs' st with
      | Some p, Some entries =>
          Some ({| entryLog := l; entryOfParticipant := p |} :: entries)
      | _, _ => None
      end
  end.

(** [router.get('/event/:eventId/date/:date')], lines 319-396; [findOne]
    throws on an [eventId] that is no uuid. *)
Definition getCheckInsOnDate (st : Store) (account : User.t) (eventId : IdText)
    (date : DateText) : Outcome CheckInsOnDate :=
  match eventId with
  | NotUuid _ => Refused internalServerError
  | Uuid eventId =>
      match findEvent eventId st with
      | None => Refused (reply 404 "Event not found")
      | Some event =>
          if negb (checkEventAccess event account)
          then Refused (reply 403 "Access denied to this event")
          else
            match newDate date with
            | InvalidDate => Refused (reply 400 "Invalid date format. Use YYYY-MM-DD")
            | TimeValue t =>
                let logs := checkInsOn eventId (setHours0 t) st in
                match withParticipants logs st with
                | None => Refused internalServerError
                | Some entries =>
                    Data {| count := List.length logs; checkIns := entries |}
                end
            end
      end
  end.

(** Orders two logs for [order: { checkedInAt: 'DESC' }]. *)
Definition newerOrSame (a b : CheckInLog.t) : Prop :=
  (CheckInLog.checkedInAt b <= CheckInLog.checkedInAt a)%Z.

(** The log of the first check-in of the scenario, and a date of day D. *)
Definition firstLog : CheckInLog.t :=
  CheckInLog.with_id 3
    (createCheckInLog aminaRow aminaFields clerk (setHours0 (tToday dayD)) dayD).

Definition november14 : DateText :=
  {| text := "2023-11-14"; parsed := TimeValue 1699920000000 |}.

(** A check-in of another person at the same event. *)
Definition juma : Checkin.body :=
  {| Checkin.eventId := Some (Uuid 1); Checkin.idNumber := Some "456";
     Checkin.name := Some "Juma"; Checkin.dateOfBirth := Some born1991;
     Checkin.sex := Some "M"; Checkin.county := None;
     Checkin.constituency := None; Checkin.ward := None;
     Checkin.pollingCenter := None |}.

(** ** Requests served one after the other

    The routes that write, each request handled to its answer before the
    next one starts. *)

Inductive Request :=
| PostEvent (account : User.t) (b : EventBody.t)
| DeleteEvent (account : User.t) (eventId : IdText)
| PostCheckin (account : User.t) (b : Checkin.body) (clk : Clock).

Definition serve (st : Store) (r : Request) : Store * Response :=
  match r with
  | PostEvent account b => createEvent st account b
  | DeleteEvent account eventId => deleteEvent st account eventId
  | PostCheckin account b clk => checkin st account b clk
  end.

Definition serveAll (rs : list Request) (st : Store) : Store :=
  fold_left (fun st r => fst (serve st r)) rs st.

(** The stores the routes build from the empty one. *)
Definition served (st : Store) : Prop :=
  exists rs, serveAll rs emptyStore = st.

Definition personKey (p : Participant.t) : uuid * string :=
  (Participant.eventId p, Participant.idNumber p).

(** What the routes keep, beyond what the tables enforce: one participant
    per event and identity number, events with a name and a county, and
    logs whose event is the event of their participant. *)
Record tidy (st : Store) : Prop := {
  tidy_person : NoDup (map personKey (participants st));
  tidy_event :
    forall e, In e (events st) -> Event.eventName e <> "" /\ Event.county e <> "";
  tidy_log :
    forall l, In l (checkInLogs st) ->
      exists p, In p (participants st)
                /\ Participant.id p = CheckInLog.participantId l
                /\ Participant.eventId p = CheckInLog.eventId l
}.

(** ** The earlier check-in route

    The version of [routes/participants.ts] that keeps the attendance on
    the participant row ([checkedIn], [checkedInAt], [checkedInById] of
    [entities/Participant.ts]) and has no check-in logs.  Its routes take
    the account as it is: only [req.user.id] is read. *)

Module Legacy.

Module Participant.
Record t := {
  id : uuid;
  idNumber : string;
  name : string;
  dateOfBirth : JsDate;
  sex : string;
  county : option string;
  constituency : option string;
  ward : option string;
  pollingCenter : option string;
  checkedIn : Z;
  checkedInById : uuid;
  eventId : uuid;
  checkedInAt : option Z
}.

(** [varchar(n)] lengths, a date, and a [smallint]. *)
Definition columns_ok (p : t) : bool :=
  fits 50 (idNumber p) && fits 255 (name p) && isDate (dateOfBirth p)
  && fits 20 (sex p)
  && fitsOpt 255 (county p) && fitsOpt 255 (constituency p)
  && fitsOpt 255 (ward p) && fitsOpt 255 (pollingCenter p)
  && (-32768 <=? checkedIn p)%Z && (checkedIn p <=? 32767)%Z.

Definition with_id (i : uuid) (p : t) : t :=
  {| id := i; idNumber := idNumber p; name := name p;
     dateOfBirth := dateOfBirth p; sex := sex p; county := county p;
     constituency := constituency p; ward := ward p;
     pollingCenter := pollingCenter p; checkedIn := checkedIn p;
     checkedInById := checkedInById p; eventId := eventId p;
     checkedInAt := checkedInAt p |}.

(** The entity as its row keeps it: [dateOfBirth] without the time. *)
Definition stored (p : t) : t :=
  {| id := id p; idNumber := idNumber p; name := name p;
     dateOfBirth := dateOnly (dateOfBirth p); sex := sex p; county := county p;
     constituency := constituency p; ward := ward p;
     pollingCenter := pollingCenter p; checkedIn := checkedIn p;
     checkedInById := checkedInById p; eventId := eventId p;
     checkedInAt := checkedInAt p |}.
End Participant.

Record Store := {
  events : list Event.t;
  participants : list Participant.t;
  nextId : uuid
}.

Definition findEvent (eventId : uuid) (st : Store) : option Event.t :=
  find (fun e => Event.eventId e =? eventId) (events st).

Definition findParticipant (eventId : uuid) (idNumber : string) (st : Store)
  : option Participant.t :=
  find (fun p => (Participant.eventId p =? eventId)
                 && (Participant.idNumber p =? idNumber)%string)
       (participants st).

Definition hasEvent (eventId : uuid) (st : Store) : bool :=
  existsb (fun e => Event.eventId e =? eventId) (events st).

Definition insertParticipant (p : Participant.t) (st : Store)
  : Result (Store * Participant.t) :=
  if negb (Participant.columns_ok p) then Err InvalidValue
  else if negb (hasEvent (Participant.eventId p) st) then Err ForeignKeyViolation
  else
    let p' := Participant.with_id (nextId st) (Participant.stored p) in
    Ok ({| events := events st;
           participants := participants st ++ [p'];
           nextId := N.succ (nextId st) |}, p').

Definition updateParticipant (p : Participant.t) (st : Store) : Result Store :=
  if negb (Participant.columns_ok p) then Err InvalidValue
  else if negb (hasEvent (Participant.eventId p) st) then Err ForeignKeyViolation
  else
    let p' := Participant.stored p in
    Ok {| events := events st;
          participants :=
            map (fun q => if Participant.id q =? Participant.id p' then p' else q)
                (participants st);
          nextId := nextId st |}.

(** [res.status(code).json({ message, participant })] *)
Record Response := {
  status : N;
  message : string;
  participant : option Participant.t
}.

Definition reply (code : N) (msg : string) : Response :=
  {| status := code; message := msg; participant := None |}.

(** Lines 149-159: the assignments to the existing participant. *)
Definition checkInExisting (b : Checkin.body) (f : Checkin.fields)
    (userId : uuid) (now : Z) (existing : Participant.t) : Participant.t :=
  {| Participant.id := Participant.id existing;
     Participant.idNumber := Participant.idNumber existing;
     Participant.name := Checkin.f_name f;
     Participant.dateOfBirth := newDate (Checkin.f_dateOfBirth f);
     Participant.sex := Checkin.f_sex f;
     Participant.county := orNull (Checkin.county b);
     Participant.constituency := orNull (Checkin.constituency b);
     Participant.ward := orNull (Checkin.ward b);
     Participant.pollingCenter := orNull (Checkin.pollingCenter b);
     Participant.checkedIn := 1;
     Participant.checkedInById := userId;
     Participant.eventId := Participant.eventId existing;
     Participant.checkedInAt := Some now |}.

(** Lines 178-191: [participantRepository.create({...})]. *)
Definition createParticipant (b : Checkin.body) (f : Checkin.fields)
    (userId : uuid) (now : Z) : Participant.t :=
  {| Participant.id := 0;
     Participant.idNumber := Checkin.f_idNumber f;
     Participant.name := Checkin.f_name f;
     Participant.dateOfBirth := newDate (Checkin.f_dateOfBirth f);
     Participant.sex := Checkin.f_sex f;
     Participant.county := orNull (Checkin.county b);
     Participant.constituency := orNull (Checkin.constituency b);
     Participant.ward := orNull (Checkin.ward b);
     Participant.pollingCenter := orNull (Checkin.pollingCenter b);
     Participant.checkedIn := 1;
     Participant.checkedInById := userId;
     Participant.eventId := Checkin.f_eventId f;
     Participant.checkedInAt := Some now |}.

Definition checkedInMessage : string := "Participant checked in successfully".

Definition alreadyCheckedIn : Response :=
  reply 400 "Participant already checked in for this event".

(** [router.post('/checkin')], lines 95-214; [now] is what [new Date()]
    gives.  A request that passes the test of line 113 with an [eventId]
    that is no uuid makes the [findOne] of line 123 throw.  The answer
    prints the [id], [idNumber], [name], [checkedIn], [checkedInAt] and
    [eventId] of the participant, given here as the table keeps it. *)
Definition checkin (st : Store) (userId : uuid) (b : Checkin.body) (now : Z)
  : Store * Response :=
  if Checkin.missing b then (st, reply 400 requiredMessage)
  else
    match Checkin.required b with
    | None => (st, reply 500 "Internal server error")
    | Some f =>
        match findEvent (Checkin.f_eventId f) st with
        | None => (st, reply 404 "Event not found")
        | Some _ =>
            match findParticipant (Checkin.f_eventId f) (Checkin.f_idNumber f) st with
            | Some existing =>
                if (Participant.checkedIn existing =? 1)%Z
                then (st, alreadyCheckedIn)
                else
                  let existing' := checkInExisting b f userId now existing in
                  match updateParticipant existing' st with
                  | Err _ => (st, reply 500 "Internal server error")
                  | Ok st' =>
                      (st', {| status := 200; message := checkedInMessage;
                               participant := Some (Participant.stored existing') |})
                  end
            | None =>
                match insertParticipant (createParticipant b f userId now) st with
                | Err _ => (st, reply 500 "Internal server error")
                | Ok (st', participant) =>
                    (st', {| status := 201; message := checkedInMessage;
                             participant := Some participant |})
                end
            end
        end
    end.

End Legacy.

(** Check-in requests of the earlier route, served one after the other. *)
Record LegacyRequest := {
  byUser : uuid;
  withBody : Checkin.body;
  atTime : Z
}.

Definition legacyServe (st : Legacy.Store) (r : LegacyRequest) : Legacy.Store :=
  fst (Legacy.checkin st (byUser r) (withBody r) (atTime r)).

Definition legacyServeAll (rs : list LegacyRequest) (st : Legacy.Store)
  : Legacy.Store :=
  fold_left legacyServe rs st.

(** The participants have distinct identifiers, handed out by the store. *)
Definition legacyWf (st : Legacy.Store) : Prop :=
  NoDup (map Legacy.Participant.id (Legacy.participants st))
  /\ forall p, In p (Legacy.participants st) ->
               Legacy.Participant.id p < Legacy.nextId st.

(** The earlier route on the scenario: the event, and the person checked in
    on day D, then again the day after. *)
Definition legacyRally : Legacy.Store :=
  {| Legacy.events := [rallyEvent]; Legacy.participants := []; Legacy.nextId := 2 |}.

(** ** The account routes

    [signup], [login], [refresh] and [logout], and the [users] table they
    keep.  Password hashing and the signing and checking of tokens are
    [utils/auth]; a value of [Utils] is that module as it answers during
    one request (a hash may be salted and a token carries its time of
    issue, so two requests need not see the same answers). *)

Module Auth.

Module Account.
(** [entities/User.ts] *)
Record t := {
  id : uuid;
  name : string;
  email : string;
  password : string;
  role : UserRole;
  refreshToken : option string;
  adminId : option uuid
}.

(** The [varchar(n)] columns. *)
Definition columns_ok (a : t) : bool :=
  fits 255 (name a) && fits 255 (email a) && fits 255 (password a)
  && fitsOpt 500 (refreshToken a).

Definition with_id (i : uuid) (a : t) : t :=
  {| id := i; name := name a; email := email a; password := password a;
     role := role a; refreshToken := refreshToken a; adminId := adminId a |}.

(** [user.refreshToken = token] *)
Definition with_refreshToken (token : option string) (a : t) : t :=
  {| id := id a; name := name a; email := email a; password := password a;
     role := role a; refreshToken := token; adminId := adminId a |}.

(** The account as the event and participant routes read it. *)
Definition toUser (a : t) : User.t :=
  {| User.id := id a; User.role := role a; User.adminId := adminId a |}.
End Account.

Module TokenPayload.
Record t := {
  userId : uuid;
  email : string;
  role : UserRole
}.
End TokenPayload.

Record Utils := {
  hashPassword : string -> string;
  comparePassword : string -> string -> bool;
  generateAccessToken : TokenPayload.t -> string;
  generateRefreshToken : TokenPayload.t -> string;
  (** [None] when [verifyToken] throws. *)
  verifyToken : string -> option TokenPayload.t
}.

Record Accounts := {
  accounts : list Account.t;
  nextAccountId : uuid
}.

Definition emptyAccounts : Accounts := {| accounts := []; nextAccountId := 1 |}.

(** [userRepository.findOne({ where: { email } })] *)
Definition findByEmail (email : string) (ac : Accounts) : option Account.t :=
  find (fun a => (Account.email a =? email)%string) (accounts ac).

(** [userRepository.findOne({ where: { id } })] *)
Definition findById (id : uuid) (ac : Accounts) : option Account.t :=
  find (fun a => Account.id a =? id) (accounts ac).

(** [save] of an account made by [create]: an INSERT; [email] is unique. *)
Definition insertAccount (a : Account.t) (ac : Accounts)
  : Result (Accounts * Account.t) :=
  if negb (Account.columns_ok a) then Err InvalidValue
  else if existsb (fun x => (Account.email x =? Account.email a)%string) (accounts ac)
  then Err UniqueViolation
  else
    let a' := Account.with_id (nextAccountId ac) a in
    Ok ({| accounts := accounts ac ++ [a'];
           nextAccountId := N.succ (nextAccountId ac) |}, a').

(** [save] of a loaded account after [user.refreshToken = ...]: the one
    changed column is written to the row with the account's [id]. *)
Definition updateAccount (a : Account.t) (ac : Accounts) : Result Accounts :=
  if negb (fitsOpt 500 (Account.refreshToken a)) then Err InvalidValue
  else
    Ok {| accounts :=
            map (fun x => if Account.id x =? Account.id a
                          then Account.with_refreshToken (Account.refreshToken a) x
                          else x)
                (accounts ac);
          nextAccountId := nextAccountId ac |}.

(** What a route does to the [refreshToken] cookie. *)
Inductive Cookie :=
| NoCookie
| SetRefreshToken (token : string)
| ClearRefreshToken.

(** The answer: status, message, the access token and the account of the
    body (its id, name, email and role are printed), and the cookie. *)
Record Response := {
  status : N;
  message : string;
  accessToken : option string;
  user : option Account.t;
  cookie : Cookie
}.

Definition fail (code : N) (msg : string) : Response :=
  {| status := code; message := msg; accessToken := None; user := None;
     cookie := NoCookie |}.

Definition payloadOf (a : Account.t) : TokenPayload.t :=
  {| TokenPayload.userId := Account.id a;
     TokenPayload.email := Account.email a;
     TokenPayload.role := Account.role a |}.

Record SignupBody := {
  signupName : option string;
  signupEmail : option string;
  signupPassword : option string
}.

(** [router.post('/signup')] *)
Definition signup (u : Utils) (ac : Accounts) (b : SignupBody)
  : Accounts * Response :=
  match orNull (signupName b), orNull (signupEmail b), orNull (signupPassword b) with
  | Some name, Some email, Some password =>
      match findByEmail email ac with
      | Some _ => (ac, fail 400 "User with this email already exists")
      | None =>
          let hashedPassword := hashPassword u password in
          match insertAccount
                  {| Account.id := 0; Account.name := name;
                     Account.email := email;
                     Account.password := hashedPassword;
                     Account.role := USER;
                     Account.refreshToken := None;
                     Account.adminId := None |} ac with
          | Err _ => (ac, fail 500 "Internal server error")
          | Ok (ac1, user) =>
              let accessToken := generateAccessToken u (payloadOf user) in
              let refreshToken := generateRefreshToken u (payloadOf user) in
              let user' := Account.with_refreshToken (Some refreshToken) user in
              match updateAccount user' ac1 with
              | Err _ => (ac1, fail 500 "Internal server error")
              | Ok ac2 =>
                  (ac2, {| status := 201; message := "User created successfully";
                           accessToken := Some accessToken; user := Some user';
                           cookie := SetRefreshToken refreshToken |})
              end
          end
      end
  | _, _, _ => (ac, fail 400 "Name, email, and password are required")
  end.

Record LoginBody := {
  loginEmail : option string;
  loginPassword : option string
}.

(** [router.post('/login')] *)
Definition login (u : Utils) (ac : Accounts) (b : LoginBody)
  : Accounts * Response :=
  match orNull (loginEmail b), orNull (loginPassword b) with
  | Some email, Some password =>
      match findByEmail email ac with
      | None => (ac, fail 401 "Invalid email or password")
      | Some user =>
          if negb (comparePassword u password (Account.password user))
          then (ac, fail 401 "Invalid email or password")
          else
            let accessToken := generateAccessToken u (payloadOf user) in
            let refreshToken := generateRefreshToken u (payloadOf user) in
            let user' := Account.with_refreshToken (Some refreshToken) user in
            match updateAccount user' ac with
            | Err _ => (ac, fail 500 "Internal server error")
            | Ok ac' =>
                (ac', {| status := 200; message := "Login successful";
                         accessToken := Some accessToken; user := Some user';
                         cookie := SetRefreshToken refreshToken |})
            end
      end
  | _, _ => (ac, fail 400 "Email and password are required")
  end.

Definition sameToken (stored : option string) (token : string) : bool :=
  match stored with
  | Some s => (s =? token)%string
  | None => false
  end.

(** [router.post('/refresh')]; [token] is [req.cookies.refreshToken].  Every
    throw ends in the route's own [catch], which answers 401. *)
Definition refresh (u : Utils) (ac : Accounts) (token : option string)
  : Accounts * Response :=
  match orNull token with
  | None => (ac, fail 401 "Refresh token not provided")
  | Some refreshToken =>
      match verifyToken u refreshToken with
      | None => (ac, fail 401 "Invalid refresh token")
      | Some decoded =>
          match findById (TokenPayload.userId decoded) ac with
          | None => (ac, fail 401 "Invalid refresh token")
          | Some user =>
              if negb (sameToken (Account.refreshToken user) refreshToken)
              then (ac, fail 401 "Invalid refresh token")
              else
                let newAccessToken := generateAccessToken u (payloadOf user) in
                let newRefreshToken := generateRefreshToken u (payloadOf user) in
                let user' := Account.with_refreshToken (Some newRefreshToken) user in
                match updateAccount user' ac with
                | Err _ => (ac, fail 401 "Invalid refresh token")
                | Ok ac' =>
                    (ac', {| status := 200;
                             message := "Token refreshed successfully";
                             accessToken := Some newAccessToken; user := None;
                             cookie := SetRefreshToken newRefreshToken |})
                end
          end
      end
  end.

(** [router.post('/logout')]; [user] is [req.user], the account the
    [authenticate] middleware loaded. *)
Definition logout (ac : Accounts) (user : Account.t) : Accounts * Response :=
  let user' := Account.with_refreshToken None user in
  match updateAccount user' ac with
  | Err _ => (ac, fail 500 "Internal server error")
  | Ok ac' =>
      (ac', {| status := 200; message := "Logout successful";
               accessToken := None; user := None; cookie := ClearRefreshToken |})
  end.

(** The tables the account routes build from the empty one; the account of
    a logout is a row of the table. *)
Inductive built : Accounts -> Prop :=
| built_empty : built emptyAccounts
| built_signup (u : Utils) (ac : Accounts) (b : SignupBody) :
    built ac -> built (fst (signup u ac b))
| built_login (u : Utils) (ac : Accounts) (b : LoginBody) :
    built ac -> built (fst (login u ac b))
| built_refresh (u : Utils) (ac : Accounts) (token : option string) :
    built ac -> built (fst (refresh u ac token))
| built_logout (ac : Accounts) (user : Account.t) :
    built ac -> In user (accounts ac) -> built (fst (logout ac user)).

End Auth.

(** What the unique index on [email], the generated key and the routes
    keep of the [users] table. *)
Record accountsWf (ac : Auth.Accounts) : Prop := {
  wf_emails : NoDup (map Auth.Account.email (Auth.accounts ac));
  wf_ids : NoDup (map Auth.Account.id (Auth.accounts ac));
  wf_fresh : forall a, In a (Auth.accounts ac) ->
                       Auth.Account.id a < Auth.nextAccountId ac;
  wf_plain : forall a, In a (Auth.accounts ac) ->
                       Auth.Account.role a = USER /\ Auth.Account.adminId a = None
}.

(** An account request and the utilities of three requests: hashing by a
    prefix, refresh tokens that verify as account 1. *)
Definition wanjiru : Auth.SignupBody :=
  {| Auth.signupName := Some "Wanjiru"; Auth.signupEmail := Some "wanjiru@example.org";
     Auth.signupPassword := Some "s3cret" |}.

Definition utilsIssuing (refreshToken : string) : Auth.Utils :=
  {| Auth.hashPassword := fun password => String.append "hash:" password;
     Auth.comparePassword :=
       fun password hashed => (hashed =? String.append "hash:" password)%string;
     Auth.generateAccessToken := fun _ => "access";
     Auth.generateRefreshToken := fun _ => refreshToken;
     Auth.verifyToken :=
       fun token =>
         if String.prefix "refresh" token
         then Some {| Auth.TokenPayload.userId := 1;
                      Auth.TokenPayload.email := "wanjiru@example.org";
                      Auth.TokenPayload.role := USER |}
         else None |}.

(** Wanjiru signed up. *)
Definition signedUp : Auth.Accounts :=
  fst (Auth.signup (utilsIssuing "refresh-1") Auth.emptyAccounts wanjiru).

(** Her row after the signup, and her login. *)
Definition wanjiruAccount : Auth.Account.t :=
  {| Auth.Account.id := 1; Auth.Account.name := "Wanjiru";
     Auth.Account.email := "wanjiru@example.org";
     Auth.Account.password := "hash:s3cret"; Auth.Account.role := USER;
     Auth.Account.refreshToken := Some "refresh-1";
     Auth.Account.adminId := None |}.

Definition wanjiruLogin : Auth.LoginBody :=
  {| Auth.loginEmail := Some "wanjiru@example.org";
     Auth.loginPassword := Some "s3cret" |}.

(** * Properties *)

(** ** The store *)

Lemma has_key_spec (pid eid : uuid) (day : Z) (l : CheckInLog.t) :
  CheckInLog.has_key pid eid day l = true <-> CheckInLog.key l = (pid, eid, day).
Proof.
  unfold CheckInLog.has_key, CheckInLog.key.
  rewrite !andb_true_iff, !N.eqb_eq, Z.eqb_eq.
  split.
  - intros [[-> ->] ->]. reflexivity.
  - intros H. injection H as -> -> ->. auto.
Qed.

Lemma has_key_In (l : CheckInLog.t) (ls : list CheckInLog.t) :
  existsb (CheckInLog.has_key (CheckInLog.participantId l) (CheckInLog.eventId l)
             (CheckInLog.checkInDate l)) ls = true
  <-> In (CheckInLog.key l) (map CheckInLog.key ls).
Proof.
  rewrite existsb_exists, in_map_iff.
  split; intros [x [H1 H2]]; exists x.
  - split; [now apply has_key_spec | assumption].
  - split; [assumption | now apply has_key_spec].
Qed.

Lemma NoDup_map_filter {A B : Type} (f : A -> B) (g : A -> bool) (l : list A) :
  NoDup (map f l) -> NoDup (map f (filter g l)).
Proof.
  induction l as [|x l IH]; cbn; intros H; [constructor|].
  inversion H as [|? ? Hx Hl]; subst.
  destruct (g x); cbn; [constructor|]; auto.
  intros Hin. apply Hx.
  apply in_map_iff in Hin as [y [Hy Hf]].
  apply filter_In in Hf as [Hf _].
  apply in_map_iff. eauto.
Qed.

Lemma filter_all {A : Type} (g : A -> bool) (l : list A) :
  (forall x, In x l -> g x = true) -> filter g l = l.
Proof.
  induction l as [|x l IH]; cbn; intros H; [reflexivity|].
  rewrite (H x (or_introl eq_refl)). f_equal. apply IH. auto.
Qed.

Lemma hasParticipant_In (i : uuid) (st : Store) :
  hasParticipant i st = true <-> In i (map Participant.id (participants st)).
Proof.
  unfold hasParticipant. rewrite existsb_exists, in_map_iff.
  split; intros [p [H1 H2]]; exists p.
  - split; [now apply N.eqb_eq | assumption].
  - split; [assumption | now apply N.eqb_eq].
Qed.

Lemma update_ids (p : Participant.t) (ps : list Participant.t) :
  map Participant.id
      (map (fun q => if Participant.id q =? Participant.id p then p else q) ps)
  = map Participant.id ps.
Proof.
  induction ps as [|q ps IH]; cbn; [reflexivity|].
  rewrite IH. f_equal.
  destruct (Participant.id q =? Participant.id p) eqn:E; [|reflexivity].
  apply N.eqb_eq in E. now symmetry.
Qed.

(** A storage operation that succeeds is described by what it did. *)

Lemma insertParticipant_Ok (p : Participant.t) (st st' : Store) (p' : Participant.t) :
  insertParticipant p st = Ok (st', p') ->
  Participant.columns_ok p = true
  /\ hasEvent (Participant.eventId p) st = true
  /\ p' = Participant.with_id (nextId st) (Participant.stored p)
  /\ events st' = events st
  /\ participants st' = participants st ++ [p']
  /\ checkInLogs st' = checkInLogs st
  /\ nextId st' = N.succ (nextId st).
Proof.
  unfold insertParticipant.
  destruct (Participant.columns_ok p); cbn; [|discriminate].
  destruct (hasEvent _ st); cbn; [|discriminate].
  intros H. injection H as <- <-. cbn. auto 10.
Qed.

Lemma updateParticipant_Ok (p : Participant.t) (st st' : Store) :
  updateParticipant p st = Ok st' ->
  Participant.columns_ok p = true
  /\ hasEvent (Participant.eventId p) st = true
  /\ events st' = events st
  /\ participants st'
     = map (fun q => if Participant.id q =? Participant.id (Participant.stored p)
                     then Participant.stored p else q)
           (participants st)
  /\ checkInLogs st' = checkInLogs st
  /\ nextId st' = nextId st.
Proof.
  unfold updateParticipant.
  destruct (Participant.columns_ok p); cbn; [|discriminate].
  destruct (hasEvent _ st); cbn; [|discriminate].
  intros H. injection H as <-. cbn. auto 10.
Qed.

Lemma insertCheckInLog_Ok (l : CheckInLog.t) (st st' : Store) (l' : CheckInLog.t) :
  insertCheckInLog l st = Ok (st', l') ->
  ~ In (CheckInLog.key l) (map CheckInLog.key (checkInLogs st))
  /\ hasParticipant (CheckInLog.participantId l) st = true
  /\ hasEvent (CheckInLog.eventId l) st = true
  /\ l' = CheckInLog.with_id (nextId st) l
  /\ events st' = events st
  /\ participants st' = participants st
  /\ checkInLogs st' = checkInLogs st ++ [l']
  /\ nextId st' = N.succ (nextId st).
Proof.
  unfold insertCheckInLog.
  destruct (existsb _ (checkInLogs st)) eqn:Hdup; [discriminate|].
  destruct (hasParticipant _ st); cbn; [|discriminate].
  destruct (hasEvent _ st); cbn; [|discriminate].
  intros H. injection H as <- <-. cbn.
  split; [|auto 10].
  intros Hin. apply has_key_In in Hin. congruence.
Qed.

Lemma insertCheckInLog_duplicate (l : CheckInLog.t) (st : Store) :
  In (CheckInLog.key l) (map CheckInLog.key (checkInLogs st)) ->
  insertCheckInLog l st = Err UniqueViolation.
Proof.
  intros Hin. apply has_key_In in Hin.
  unfold insertCheckInLog. now rewrite Hin.
Qed.

Lemma removeEvent_Ok (eventId : uuid) (st st' : Store) :
  removeEvent eventId st = Ok st' ->
  existsb (fun p => Participant.eventId p =? eventId) (participants st) = false
  /\ events st' = filter (fun e => negb (Event.eventId e =? eventId)) (events st)
  /\ participants st' = participants st
  /\ checkInLogs st'
     = filter (fun l => negb (CheckInLog.eventId l =? eventId)) (checkInLogs st)
  /\ nextId st' = nextId st.
Proof.
  unfold removeEvent, removeEventWith; cbn.
  destruct (existsb _ (participants st)) eqn:Hps; cbn; [discriminate|].
  intros H. injection H as <-. cbn.
  repeat split; try reflexivity.
  f_equal. apply filter_all. intros l _.
  apply negb_true_iff, andb_false_iff. left.
  apply not_true_is_false. intros Hex.
  apply existsb_exists in Hex as [p [Hin Hp]].
  apply andb_true_iff in Hp as [_ Hp].
  assert (existsb (fun p => Participant.eventId p =? eventId) (participants st) = true)
    by (apply existsb_exists; eauto).
  congruence.
Qed.

Lemma emptyStore_wf : wf emptyStore.
Proof.
  split; cbn; [constructor | contradiction | contradiction].
Qed.

Lemma applyOp_wf (st : Store) (op : StoreOp) : wf st -> wf (applyOp st op).
Proof.
  intros [Hu Hl Hp]. unfold applyOp.
  destruct (runOp op st) as [st'|] eqn:Hrun; [|now split].
  destruct op as [e|p|p|l|eid]; cbn in Hrun.
  - unfold insertEvent in Hrun.
    destruct (Event.columns_ok e); cbn in Hrun; [|discriminate].
    injection Hrun as <-. split; cbn; auto.
    intros p Hin. specialize (Hp p Hin). lia.
  - destruct (insertParticipant p st) as [[st1 p']|] eqn:Hins; [|discriminate].
    cbn in Hrun. injection Hrun as <-.
    apply insertParticipant_Ok in Hins
      as (_ & _ & -> & _ & Hps & Hls & Hn).
    split.
    + now rewrite Hls.
    + rewrite Hls. intros l Hin. apply hasParticipant_In.
      rewrite Hps, map_app, in_app_iff. left.
      apply hasParticipant_In. auto.
    + rewrite Hps, Hn. intros q Hin. apply in_app_iff in Hin as [Hin|[<-|[]]].
      * specialize (Hp q Hin). lia.
      * cbn. lia.
  - apply updateParticipant_Ok in Hrun as (Hc & _ & _ & Hps & Hls & Hn).
    split.
    + now rewrite Hls.
    + rewrite Hls. intros l Hin. apply hasParticipant_In.
      rewrite Hps, update_ids. apply hasParticipant_In. auto.
    + rewrite Hn. intros q Hin.
      assert (Hid : In (Participant.id q) (map Participant.id (participants st))).
      { rewrite <- (update_ids (Participant.stored p)), <- Hps. now apply in_map. }
      apply in_map_iff in Hid as [q' [<- Hq']]. auto.
  - destruct (insertCheckInLog l st) as [[st1 l']|] eqn:Hins; [|discriminate].
    cbn in Hrun. injection Hrun as <-.
    apply insertCheckInLog_Ok in Hins
      as (Hnew & Hfk & _ & -> & _ & Hps & Hls & Hn).
    split.
    + rewrite Hls, map_app. cbn.
      apply NoDup_app; [assumption | repeat constructor; intros [] | ].
      intros k Hk [<-|[]]. apply Hnew, Hk.
    + rewrite Hls. intros x Hin. apply hasParticipant_In. rewrite Hps.
      apply hasParticipant_In.
      apply in_app_iff in Hin as [Hin|[<-|[]]]; auto.
    + rewrite Hps, Hn. intros q Hin. specialize (Hp q Hin). lia.
  - apply removeEvent_Ok in Hrun as (_ & _ & Hps & Hls & Hn).
    split.
    + rewrite Hls. now apply NoDup_map_filter.
    + rewrite Hls. intros x Hin. apply filter_In in Hin as [Hin _].
      apply hasParticipant_In. rewrite Hps. apply hasParticipant_In. auto.
    + now rewrite Hps, Hn.
Qed.

Lemma runOps_wf (ops : list StoreOp) (st : Store) : wf st -> wf (runOps ops st).
Proof.
  revert st. induction ops as [|op ops IH]; intros st H; cbn; [assumption|].
  apply IH, applyOp_wf, H.
Qed.

Lemma reachable_wf (st : Store) : reachable st -> wf st.
Proof.
  intros [ops <-]. apply runOps_wf, emptyStore_wf.
Qed.

Lemma reachable_applyOp (st : Store) (op : StoreOp) :
  reachable st -> reachable (applyOp st op).
Proof.
  intros [ops <-]. exists (ops ++ [op]).
  unfold runOps. now rewrite fold_left_app.
Qed.

(** C1: in every reachable store no two rows of [check_in_logs] have the
    same (participantId, eventId, checkInDate), and it is the table that
    enforces it: the insert of a row whose triple is taken is refused with
    a unique violation, whoever issues it. *)
Theorem checkInLog_unique :
  forall st : Store,
    reachable st ->
    NoDup (map CheckInLog.key (checkInLogs st))
    /\ (forall l : CheckInLog.t,
          In (CheckInLog.key l) (map CheckInLog.key (checkInLogs st)) ->
          insertCheckInLog l st = Err UniqueViolation).
Proof.
  intros st Hr. split.
  - apply reachable_wf, Hr.
  - intros l. apply insertCheckInLog_duplicate.
Qed.

Lemma stCheckedIn_ops : runOps opsCheckedIn emptyStore = stCheckedIn.
Proof. reflexivity. Qed.

Lemma checkInLog_unique_witness :
  NoDup (map CheckInLog.key (checkInLogs stCheckedIn))
  /\ (forall l : CheckInLog.t,
        In (CheckInLog.key l) (map CheckInLog.key (checkInLogs stCheckedIn)) ->
        insertCheckInLog l stCheckedIn = Err UniqueViolation).
Proof.
  apply (checkInLog_unique stCheckedIn).
  exists opsCheckedIn. reflexivity.
Defined.

(** ** Access control *)

(** C5: the access decision is a total function of the event and the
    account alone.  An ADMIN account is permitted exactly when it created
    the event; a USER account exactly when its [adminId] is set and is the
    creator of the event; a USER account without [adminId] is denied. *)
Theorem checkEventAccess_rule :
  forall (event : Event.t) (i : uuid) (a : option uuid),
    (checkEventAccess event {| User.id := i; User.role := ADMIN; User.adminId := a |} = true
     <-> Event.createdById event = i)
    /\ (checkEventAccess event {| User.id := i; User.role := USER; User.adminId := a |} = true
     <-> exists owner, a = Some owner /\ Event.createdById event = owner)
    /\ checkEventAccess event {| User.id := i; User.role := USER; User.adminId := None |} = false.
Proof.
  intros event i a. unfold checkEventAccess; cbn.
  split; [apply N.eqb_eq | split; [|reflexivity]].
  destruct a as [owner|]; split.
  - intros H. exists owner. split; [reflexivity | now apply N.eqb_eq].
  - intros [o [Ho Hc]]. injection Ho as <-. now apply N.eqb_eq.
  - discriminate.
  - intros [o [Ho _]]. discriminate.
Qed.

(** ** Voter lookup *)

Lemma orNull_Some (o : option string) (s : string) :
  orNull o = Some s <-> o = Some s /\ s <> "".
Proof.
  unfold orNull, truthy. destruct o as [x|].
  - destruct (x =? "")%string eqn:E.
    + apply String.eqb_eq in E. subst. split; [discriminate|].
      intros [H1 H2]. injection H1 as <-. now contradiction H2.
    + apply String.eqb_neq in E. cbn. split.
      * intros H. injection H as <-. auto.
      * intros [H _]. assumption.
  - split; [discriminate | intros [H _]; discriminate].
Qed.

(** C7, amended: the filters of a lookup come from the event alone.  An
    event with an empty county is answered 400 and the gateway is not
    called; otherwise the gateway is called with the county of the event,
    with its constituency exactly when that is set, and with its ward
    exactly when that is set, whether or not the constituency is. *)
Theorem search_filters :
  forall (st : Store) (account : User.t) (b : SearchBody.t)
         (eventId : uuid) (idNumber : string) (event : Event.t),
    SearchBody.eventId b = Some (Uuid eventId) ->
    orNull (SearchBody.idNumber b) = Some idNumber ->
    findEvent eventId st = Some event ->
    checkEventAccess event account = true ->
    (Event.county event = "" ->
       searchPlan st account b
       = Answer (reply 400 "Event must have a county to perform voter lookup"))
    /\ (Event.county event <> "" ->
        exists filters,
          searchPlan st account b = CallGateway idNumber filters
          /\ county filters = Event.county event
          /\ (forall c, constituency filters = Some c
                        <-> Event.constituency event = Some c /\ c <> "")
          /\ (forall w, ward filters = Some w
                        <-> Event.ward event = Some w /\ w <> "")).
Proof.
  intros st account b eventId idNumber event Hid Hnum Hev Hacc.
  unfold searchPlan. rewrite Hid, Hnum, Hev, Hacc. cbn.
  split.
  - intros ->. reflexivity.
  - intros Hc. apply String.eqb_neq in Hc. rewrite Hc.
    exists (filtersOf event). cbn.
    split; [reflexivity|]. split; [reflexivity|].
    split; intros x; apply orNull_Some.
Qed.

Lemma search_filters_witness :
  ("R" = "" ->
     searchPlan stWardOnly owner lookup123
     = Answer (reply 400 "Event must have a county to perform voter lookup"))
  /\ ("R" <> "" ->
      exists filters,
        searchPlan stWardOnly owner lookup123 = CallGateway "123" filters
        /\ county filters = "R"
        /\ (forall c, constituency filters = Some c <-> None = Some c /\ c <> "")
        /\ (forall w, ward filters = Some w <-> Some "L" = Some w /\ w <> "")).
Proof.
  apply (search_filters stWardOnly owner lookup123 1 "123"
           {| Event.eventId := 1; Event.eventName := "Baraza"; Event.county := "R";
              Event.constituency := None; Event.ward := Some "L";
              Event.createdById := 100 |}); reflexivity.
Defined.

(** C7, as stated, fails: for the event with county "R", no constituency
    and ward "L", the gateway is called with county "R" and ward "L", not
    with the county alone. *)
Lemma search_forwards_ward_without_constituency :
  searchPlan stWardOnly owner lookup123
  = CallGateway "123" {| county := "R"; constituency := None; ward := Some "L" |}
  /\ searchPlan stWardOnly owner lookup123
     <> CallGateway "123" {| county := "R"; constituency := None; ward := None |}.
Proof.
  split; [reflexivity | discriminate].
Qed.

(** ** Check-in: validation and the event lookup *)

Lemma required_Some (b : Checkin.body) (f : Checkin.fields) :
  Checkin.required b = Some f ->
  Checkin.eventId b = Some (Uuid (Checkin.f_eventId f))
  /\ orNull (Checkin.idNumber b) = Some (Checkin.f_idNumber f)
  /\ orNull (Checkin.name b) = Some (Checkin.f_name f)
  /\ Checkin.dateOfBirth b = Some (Checkin.f_dateOfBirth f)
  /\ text (Checkin.f_dateOfBirth f) <> ""
  /\ orNull (Checkin.sex b) = Some (Checkin.f_sex f).
Proof.
  unfold Checkin.required.
  destruct (Checkin.eventId b) as [[e|t]|]; [|discriminate|discriminate].
  destruct (orNull (Checkin.idNumber b)) as [i|]; [|discriminate].
  destruct (orNull (Checkin.name b)) as [n|]; [|discriminate].
  destruct (Checkin.dateOfBirth b) as [d|]; [|discriminate].
  destruct (orNull (Checkin.sex b)) as [x|]; [|discriminate].
  destruct (text d =? "")%string eqn:E; [discriminate|].
  intros H. injection H as <-. cbn.
  apply String.eqb_neq in E. auto 10.
Qed.

Lemma orNull_truthy (o : option string) (s : string) :
  orNull o = Some s -> truthy o = true.
Proof.
  unfold orNull. now destruct (truthy o).
Qed.

(** A request with its five fields passes the test of line 133. *)
Lemma required_present (b : Checkin.body) (f : Checkin.fields) :
  Checkin.required b = Some f -> Checkin.missing b = false.
Proof.
  intros H. apply required_Some in H as (He & Hi & Hn & Hd & Ht & Hs).
  unfold Checkin.missing.
  rewrite He, (orNull_truthy _ _ Hi), (orNull_truthy _ _ Hn), Hd,
    (orNull_truthy _ _ Hs).
  cbn. apply String.eqb_neq in Ht. now rewrite Ht.
Qed.

(** The required-field test fails exactly when one of the five fields is
    absent or empty. *)
Lemma missing_spec (b : Checkin.body) :
  Checkin.missing b = true
  <-> truthyId (Checkin.eventId b) = false
      \/ truthy (Checkin.idNumber b) = false
      \/ truthy (Checkin.name b) = false
      \/ (forall d, Checkin.dateOfBirth b = Some d -> text d = "")
      \/ truthy (Checkin.sex b) = false.
Proof.
  unfold Checkin.missing.
  rewrite !orb_true_iff, !negb_true_iff.
  assert (Hd : Checkin.truthyDate (Checkin.dateOfBirth b) = false
               <-> forall d, Checkin.dateOfBirth b = Some d -> text d = "").
  { unfold Checkin.truthyDate. destruct (Checkin.dateOfBirth b) as [d|].
    - rewrite negb_false_iff, String.eqb_eq. split.
      + intros H d' Hd'. now injection Hd' as <-.
      + intros H. now apply H.
    - split; [discriminate | reflexivity]. }
  rewrite Hd. tauto.
Qed.

(** A request that passes the test has its five fields unless its eventId
    is no uuid. *)
Lemma required_None (b : Checkin.body) :
  Checkin.required b = None ->
  Checkin.missing b = true
  \/ exists text, Checkin.eventId b = Some (NotUuid text) /\ text <> "".
Proof.
  unfold Checkin.required, Checkin.missing, orNull, Checkin.truthyDate, truthyId.
  destruct (Checkin.eventId b) as [[e|t]|]; [| |now left].
  - destruct (truthy (Checkin.idNumber b)) eqn:Hi; [|now left].
    destruct (Checkin.idNumber b) as [i|]; [|discriminate].
    destruct (truthy (Checkin.name b)) eqn:Hn; [|now left].
    destruct (Checkin.name b) as [n|]; [|discriminate].
    destruct (Checkin.dateOfBirth b) as [d|]; [|now left].
    destruct (truthy (Checkin.sex b)) eqn:Hs;
      [|intros _; left; cbn; now rewrite orb_true_r].
    destruct (Checkin.sex b) as [x|]; [|discriminate].
    destruct (text d =? "")%string; [now left | discriminate].
  - intros _. destruct (t =? "")%string eqn:E; [now left|].
    right. exists t. split; [reflexivity | now apply String.eqb_neq].
Qed.

(** A request that lacks a required field is answered 400 and nothing is
    read or written. *)
Lemma checkin_required_missing (st : Store) (account : User.t)
    (b : Checkin.body) (clk : Clock) :
  Checkin.missing b = true ->
  checkin st account b clk = (st, reply 400 requiredMessage).
Proof.
  intros H. unfold checkin. now rewrite H.
Qed.

(** The handler on a request that has its five fields. *)
Lemma checkin_fields (st : Store) (account : User.t) (b : Checkin.body)
    (clk : Clock) (f : Checkin.fields) :
  Checkin.required b = Some f ->
  checkin st account b clk
  = match findEvent (Checkin.f_eventId f) st with
    | None => (st, reply 404 "Event not found")
    | Some event =>
        if negb (checkEventAccess event account)
        then (st, reply 403 "Access denied to this event")
        else
          match resolveParticipant b f st with
          | Err _ => (st, internalServerError)
          | Ok (st1, participant) =>
              match findCheckIn (Participant.id participant)
                      (Checkin.f_eventId f) (setHours0 (tToday clk)) st1 with
              | Some _ => (st1, alreadyCheckedIn)
              | None =>
                  match insertCheckInLog
                          (createCheckInLog participant f account
                             (setHours0 (tToday clk)) clk) st1 with
                  | Err _ => (st1, internalServerError)
                  | Ok (st2, checkInLog) => (st2, created checkInLog participant)
                  end
              end
          end
    end.
Proof.
  intros H. unfold checkin. now rewrite (required_present _ _ H), H.
Qed.

(** A request without its five fields is answered 400 or 500, and nothing
    is written. *)
Lemma checkin_no_fields (st : Store) (account : User.t) (b : Checkin.body)
    (clk : Clock) :
  Checkin.required b = None ->
  checkin st account b clk
  = (st, if Checkin.missing b then reply 400 requiredMessage
         else internalServerError).
Proof.
  intros H. unfold checkin. rewrite H. now destruct (Checkin.missing b).
Qed.

(** C10, amended: a check-in request whose eventId matches no event leaves
    the store as it was.  It is answered 400 when it lacks one of the five
    required fields, the required-field test coming first; when it carries
    them, it is answered 404 if its eventId is a uuid, and 500 if it is
    not, the lookup of the event throwing on it. *)
Theorem checkin_unknown_event :
  forall (st : Store) (account : User.t) (b : Checkin.body) (clk : Clock),
    (forall eventId, Checkin.eventId b = Some (Uuid eventId) ->
                     findEvent eventId st = None) ->
    checkin st account b clk
    = (st, if Checkin.missing b then reply 400 requiredMessage
           else match Checkin.eventId b with
                | Some (Uuid _) => reply 404 "Event not found"
                | _ => internalServerError
                end).
Proof.
  intros st account b clk Hnone.
  destruct (Checkin.required b) as [f|] eqn:Hreq.
  - rewrite (checkin_fields _ _ _ _ _ Hreq), (required_present _ _ Hreq).
    apply required_Some in Hreq as (He & _).
    now rewrite (Hnone _ He), He.
  - rewrite (checkin_no_fields _ _ _ _ Hreq).
    destruct (Checkin.missing b) eqn:Hm; [reflexivity|].
    destruct (required_None _ Hreq) as [Hm'|(t & -> & _)]; [congruence|reflexivity].
Qed.

Lemma checkin_unknown_event_witness :
  checkin stRally clerk noSuchEvent dayD
  = (stRally, reply 404 "Event not found").
Proof.
  apply (checkin_unknown_event stRally clerk noSuchEvent dayD).
  intros eventId H. injection H as <-. reflexivity.
Defined.

(** C10, as stated, fails.  Event 99 does not exist, yet a request for it
    that carries no name is answered 400, not 404; and the text "99" is the
    identifier of no event, yet a request with the five fields and that
    text as its eventId is answered 500, not 404. *)
Lemma checkin_unknown_event_without_name :
  findEvent 99 stRally = None
  /\ Checkin.eventId noSuchEventNoName = Some (Uuid 99)
  /\ checkin stRally clerk noSuchEventNoName dayD
     = (stRally, reply 400 requiredMessage)
  /\ status (reply 400 requiredMessage) <> 404
  /\ Checkin.eventId notAnEventId = Some (NotUuid "99")
  /\ Checkin.missing notAnEventId = false
  /\ checkin stRally clerk notAnEventId dayD = (stRally, internalServerError)
  /\ status internalServerError <> 404.
Proof.
  repeat split; discriminate.
Qed.

(** A date of birth that does not parse passes the required-field test, and
    the handler goes on to save the participant: the request is not
    answered by the validation, and the save is what fails. *)
Lemma saveResolved_invalid_date (b : Checkin.body) (f : Checkin.fields)
    (found : option Participant.t) (st : Store) :
  newDate (Checkin.f_dateOfBirth f) = InvalidDate ->
  saveResolved b f found st = Err InvalidValue.
Proof.
  intros Hd. unfold saveResolved.
  destruct found as [p|].
  - unfold updateParticipant, Participant.columns_ok; cbn. rewrite Hd. cbn.
    now rewrite !andb_false_r.
  - unfold insertParticipant, Participant.columns_ok; cbn. rewrite Hd. cbn.
    now rewrite !andb_false_r.
Qed.

Lemma checkin_invalid_date (st : Store) (account : User.t) (b : Checkin.body)
    (clk : Clock) (f : Checkin.fields) :
  Checkin.required b = Some f ->
  newDate (Checkin.f_dateOfBirth f) = InvalidDate ->
  fst (checkin st account b clk) = st
  /\ status (snd (checkin st account b clk)) <> 400.
Proof.
  intros Hreq Hd. rewrite (checkin_fields _ _ _ _ _ Hreq). unfold resolveParticipant.
  destruct (findEvent _ st) as [event|]; [|split; [reflexivity|discriminate]].
  destruct (checkEventAccess event account); cbn;
    [|split; [reflexivity|discriminate]].
  rewrite saveResolved_invalid_date by assumption.
  split; [reflexivity|discriminate].
Qed.

(** C8, at the failing input: every required field is present and the date
    of birth is the text "not-a-date".  The request is answered 500, not
    400. *)
Theorem checkin_unparsable_dateOfBirth :
  Checkin.required (visit "Amina" notADate) <> None
  /\ isNaN (newDate notADate) = true
  /\ checkin stRally clerk (visit "Amina" notADate) dayD
     = (stRally, internalServerError)
  /\ status internalServerError = 500.
Proof.
  repeat split. discriminate.
Qed.

(** ** Check-in: resolving the participant *)

Lemma find_update (g : Participant.t -> bool) (p p' : Participant.t)
    (ps : list Participant.t) :
  find g ps = Some p ->
  g p' = true ->
  Participant.id p' = Participant.id p ->
  find g (map (fun q => if Participant.id q =? Participant.id p' then p' else q) ps)
  = Some p'.
Proof.
  intros Hfind Hg Hid.
  induction ps as [|x ps IH]; cbn in *; [discriminate|].
  destruct (Participant.id x =? Participant.id p') eqn:Ex.
  - now rewrite Hg.
  - destruct (g x) eqn:Gx; [|auto].
    injection Hfind as ->. rewrite Hid, N.eqb_refl in Ex. discriminate.
Qed.

Lemma find_app_new {A : Type} (g : A -> bool) (x : A) (l : list A) :
  find g l = None -> g x = true -> find g (l ++ [x]) = Some x.
Proof.
  intros Hnone Hg.
  induction l as [|y l IH]; cbn in *; [now rewrite Hg|].
  destruct (g y); [discriminate | auto].
Qed.

Lemma findParticipant_Some (eventId : uuid) (idNumber : string) (st : Store)
    (p : Participant.t) :
  findParticipant eventId idNumber st = Some p ->
  In p (participants st)
  /\ Participant.eventId p = eventId
  /\ Participant.idNumber p = idNumber.
Proof.
  intros H. apply find_some in H as [Hin Hp].
  apply andb_true_iff in Hp as [He Hi].
  apply N.eqb_eq in He. apply String.eqb_eq in Hi. auto.
Qed.


Lemma findEvent_hasEvent (eventId : uuid) (st : Store) (event : Event.t) :
  findEvent eventId st = Some event ->
  hasEvent eventId st = true /\ Event.eventId event = eventId.
Proof.
  intros H. apply find_some in H as [Hin He].
  split; [|now apply N.eqb_eq].
  apply existsb_exists. eauto.
Qed.



(** What a successful resolution leaves behind. *)
Lemma resolveParticipant_Ok (b : Checkin.body) (f : Checkin.fields)
    (st st1 : Store) (p1 : Participant.t) :
  resolveParticipant b f st = Ok (st1, p1) ->
  findParticipant (Checkin.f_eventId f) (Checkin.f_idNumber f) st1 = Some p1
  /\ events st1 = events st
  /\ checkInLogs st1 = checkInLogs st
  /\ hasEvent (Checkin.f_eventId f) st = true
  /\ match findParticipant (Checkin.f_eventId f) (Checkin.f_idNumber f) st with
     | Some p =>
         p1 = Participant.stored (setDemographics b f p)
         /\ map Participant.id (participants st1)
            = map Participant.id (participants st)
         /\ nextId st1 = nextId st
     | None =>
         p1 = Participant.with_id (nextId st)
                (Participant.stored (createParticipant b f))
         /\ participants st1 = participants st ++ [p1]
         /\ nextId st1 = N.succ (nextId st)
     end.
Proof.
  unfold resolveParticipant, saveResolved.
  destruct (findParticipant _ _ st) as [p|] eqn:Hfind.
  - destruct (updateParticipant _ st) as [st'|] eqn:Hup; [|discriminate].
    cbn [bind]. intros H. injection H as <- <-.
    apply updateParticipant_Ok in Hup as (_ & Hfk & Hev & Hps & Hls & Hn).
    pose proof (findParticipant_Some _ _ _ _ Hfind) as (_ & He & Hi).
    cbn in Hfk. rewrite He in Hfk.
    repeat split; auto.
    + unfold findParticipant. rewrite Hps.
      apply find_update with (p := p); [exact Hfind | | reflexivity].
      cbn. now rewrite He, Hi, N.eqb_refl, String.eqb_refl.
    + rewrite Hps. apply update_ids.
  - intros Hins.
    apply insertParticipant_Ok in Hins as (_ & Hfk & Hp1 & Hev & Hps & Hls & Hn).
    repeat split; auto.
    unfold findParticipant. rewrite Hps.
    apply find_app_new; [exact Hfind|].
    rewrite Hp1. cbn. now rewrite N.eqb_refl, String.eqb_refl.
Qed.

(** The participants after a resolution. *)
Lemma resolveParticipant_participants (b : Checkin.body) (f : Checkin.fields)
    (st s1 : Store) (p1 : Participant.t) :
  resolveParticipant b f st = Ok (s1, p1) ->
  match findParticipant (Checkin.f_eventId f) (Checkin.f_idNumber f) st with
  | Some p =>
      participants s1
      = map (fun q => if Participant.id q =? Participant.id p
                      then Participant.stored (setDemographics b f p) else q)
            (participants st)
  | None => participants s1 = participants st ++ [p1]
  end.
Proof.
  unfold resolveParticipant, saveResolved.
  destruct (findParticipant _ _ st) as [p|].
  - destruct (updateParticipant _ st) as [s|] eqn:Hup; [|discriminate].
    cbn [bind]. intros H. injection H as <- <-.
    apply updateParticipant_Ok in Hup as (_ & _ & _ & -> & _). reflexivity.
  - intros Hins.
    now apply insertParticipant_Ok in Hins as (_ & _ & _ & _ & -> & _).
Qed.





(** ** Check-in: one attendance a day *)


Lemma find_existsb {A : Type} (g : A -> bool) (l : list A) :
  find g l = None <-> existsb g l = false.
Proof.
  induction l as [|x l IH]; cbn; [tauto|].
  destruct (g x); cbn; [split; discriminate | exact IH].
Qed.


Lemma findCheckIn_Some (pid eid : uuid) (day : Z) (st : Store)
    (l : CheckInLog.t) :
  findCheckIn pid eid day st = Some l ->
  In l (checkInLogs st) /\ CheckInLog.key l = (pid, eid, day).
Proof.
  intros H. apply find_some in H as [Hin Hk].
  split; [assumption | now apply has_key_spec].
Qed.





(** *** The handler and its steps *)

(** Each step of the handler leaves the store alone or performs one storage
    operation on it. *)
Lemma checkinStep_store (a : Attempt) (pc : Pc) (st : Store) :
  fst (checkinStep a pc st) = st
  \/ exists op, fst (checkinStep a pc st) = applyOp st op.
Proof.
  destruct pc as [|f|f found|f p|f p today|r]; cbn.
  - left. destruct (Checkin.missing (body a)); [reflexivity|].
    destruct (Checkin.required (body a)); [|reflexivity].
    destruct (findEvent _ st); [|reflexivity].
    now destruct (negb _).
  - now left.
  - destruct found as [p|]; cbn.
    + destruct (updateParticipant _ st) as [st'|] eqn:E; cbn; [|now left].
      right. exists (UpdateParticipant (setDemographics (body a) f p)).
      unfold applyOp; cbn. now rewrite E.
    + destruct (insertParticipant _ st) as [[st' p']|] eqn:E; cbn; [|now left].
      right. exists (InsertParticipant (createParticipant (body a) f)).
      unfold applyOp; cbn. now rewrite E.
  - left. now destruct (findCheckIn _ _ _ st).
  - destruct (insertCheckInLog _ st) as [[st' l']|] eqn:E; cbn; [|now left].
    right. eexists (InsertCheckInLog _).
    unfold applyOp; cbn. now rewrite E.
  - now left.
Qed.

Lemma checkinStep_reachable (a : Attempt) (pc : Pc) (st : Store) :
  reachable st -> reachable (fst (checkinStep a pc st)).
Proof.
  intros H. destruct (checkinStep_store a pc st) as [->|[op ->]];
    [assumption | now apply reachable_applyOp].
Qed.

Lemma stepAttempt_single (a : Attempt) (pc : Pc) (st : Store) :
  stepAttempt {| store := st; threads := [(a, pc)] |} 0
  = {| store := fst (checkinStep a pc st);
       threads := [(a, snd (checkinStep a pc st))] |}.
Proof.
  unfold stepAttempt; cbn. now destruct (checkinStep a pc st).
Qed.

(** A request that runs with no other request in between goes through the
    five steps of [checkin]. *)
Lemma checkin_alone (a : Attempt) (st : Store) :
  runSchedule [0; 0; 0; 0; 0]%nat (start [a] st)
  = {| store := fst (checkin st (user a) (body a) (clock a));
       threads := [(a, Finished (snd (checkin st (user a) (body a) (clock a))))] |}.
Proof.
  unfold runSchedule, start, checkin, resolveParticipant.
  cbn [fold_left map].
  rewrite stepAttempt_single. cbn [checkinStep].
  destruct (Checkin.missing (body a));
    [cbn [fst snd]; now rewrite !stepAttempt_single|].
  destruct (Checkin.required (body a)) as [f|];
    [|cbn [fst snd]; now rewrite !stepAttempt_single].
  destruct (findEvent _ st) as [event|];
    [|cbn [fst snd]; now rewrite !stepAttempt_single].
  destruct (negb (checkEventAccess event (user a)));
    [cbn [fst snd]; now rewrite !stepAttempt_single|].
  cbn [fst snd]. rewrite stepAttempt_single. cbn [checkinStep fst snd].
  rewrite stepAttempt_single. cbn [checkinStep].
  destruct (saveResolved _ _ _ st) as [[st1 p1]|];
    [|cbn [fst snd]; now rewrite !stepAttempt_single].
  cbn [fst snd]. rewrite stepAttempt_single. cbn [checkinStep].
  destruct (findCheckIn _ _ _ st1);
    [cbn [fst snd]; now rewrite !stepAttempt_single|].
  cbn [fst snd]. rewrite stepAttempt_single. cbn [checkinStep].
  now destruct (insertCheckInLog _ st1) as [[st2 l]|].
Qed.

Lemma runSchedule_reachable (schedule : list nat) (s : System) :
  reachable (store s) -> reachable (store (runSchedule schedule s)).
Proof.
  revert s. induction schedule as [|i schedule IH]; intros s H; cbn; [assumption|].
  apply IH. unfold stepAttempt.
  destruct (nth_error (threads s) i) as [[a pc]|]; [|assumption].
  pose proof (checkinStep_reachable a pc (store s) H) as H'.
  now destruct (checkinStep a pc (store s)).
Qed.

(** The store a check-in leaves is reachable when the store it found is. *)
Lemma checkin_reachable (st : Store) (account : User.t) (b : Checkin.body)
    (clk : Clock) :
  reachable st -> reachable (fst (checkin st account b clk)).
Proof.
  intros H.
  pose proof (runSchedule_reachable [0; 0; 0; 0; 0]%nat
                (start [{| user := account; body := b; clock := clk |}] st) H) as H'.
  now rewrite checkin_alone in H'.
Qed.




(** ** Deleting an event *)

(** An account that did not create the event, or that is not an ADMIN, is
    answered 403 and the store is left as it was. *)
Lemma deleteEvent_forbidden (st : Store) (account : User.t) (eventId : uuid)
    (event : Event.t) :
  findEvent eventId st = Some event ->
  User.role account = USER \/ Event.createdById event <> User.id account ->
  fst (deleteEvent st account (Uuid eventId)) = st
  /\ status (snd (deleteEvent st account (Uuid eventId))) = 403.
Proof.
  intros Hev Hno. unfold deleteEvent, requireAdmin.
  destruct (User.role account) eqn:Hrole; [|now split].
  destruct Hno as [Hno|Hno]; [discriminate|].
  rewrite Hev. apply N.eqb_neq in Hno. rewrite Hno. now split.
Qed.

(** The ADMIN that created an event with no participant deletes it, and the
    check-in logs that point to the event go with it. *)
Lemma deleteEvent_without_participants (st : Store) (account : User.t)
    (eventId : uuid) (event : Event.t) :
  User.role account = ADMIN ->
  findEvent eventId st = Some event ->
  Event.createdById event = User.id account ->
  existsb (fun p => Participant.eventId p =? eventId) (participants st) = false ->
  exists st',
    deleteEvent st account (Uuid eventId) = (st', reply 200 "Event deleted successfully")
    /\ findEvent eventId st' = None
    /\ participants st' = participants st
    /\ (forall l, In l (checkInLogs st') -> CheckInLog.eventId l <> eventId).
Proof.
  intros Hrole Hev Hown Hps.
  pose proof (findEvent_hasEvent _ _ _ Hev) as [_ Hid].
  unfold deleteEvent, requireAdmin. rewrite Hrole, Hev, Hown, N.eqb_refl, Hid. cbn.
  unfold removeEvent, removeEventWith; cbn. rewrite Hps. cbn.
  eexists. split; [reflexivity|]. cbn. repeat split.
  - unfold findEvent; cbn. apply find_existsb, not_true_is_false.
    intros H. apply existsb_exists in H as [e [Hin He]].
    apply filter_In in Hin as [_ Hne]. now rewrite He in Hne.
  - intros l Hin. apply filter_In in Hin as [_ Hne].
    apply negb_true_iff, N.eqb_neq in Hne. exact Hne.
Qed.

(** The ADMIN that created an event with a participant cannot delete it:
    [Participant.event] declares no [onDelete], the delete is refused, and
    the request is answered 500 with the store left as it was. *)
Lemma deleteEvent_with_participants (st : Store) (account : User.t)
    (eventId : uuid) (event : Event.t) :
  User.role account = ADMIN ->
  findEvent eventId st = Some event ->
  Event.createdById event = User.id account ->
  existsb (fun p => Participant.eventId p =? eventId) (participants st) = true ->
  deleteEvent st account (Uuid eventId) = (st, internalServerError).
Proof.
  intros Hrole Hev Hown Hps.
  pose proof (findEvent_hasEvent _ _ _ Hev) as [_ Hid].
  unfold deleteEvent, requireAdmin. rewrite Hrole, Hev, Hown, N.eqb_refl, Hid. cbn.
  unfold removeEvent, removeEventWith; cbn. now rewrite Hps.
Qed.

(** Had [Participant.event] been declared with [onDelete: 'CASCADE'] like
    the relations of [CheckInLog], the delete would go through and take the
    participants and the logs of the event with it. *)
Lemma removeEvent_cascading (eventId : uuid) (st : Store) :
  exists st',
    removeEventWith {| Participant_event := CASCADE;
                       CheckInLog_participant := CASCADE;
                       CheckInLog_event := CASCADE |} eventId st = Ok st'
    /\ findEvent eventId st' = None
    /\ (forall p, In p (participants st') -> Participant.eventId p <> eventId)
    /\ (forall l, In l (checkInLogs st') -> CheckInLog.eventId l <> eventId).
Proof.
  unfold removeEventWith; cbn. eexists. split; [reflexivity|]. cbn.
  repeat split.
  - unfold findEvent; cbn. apply find_existsb, not_true_is_false.
    intros H. apply existsb_exists in H as [e [Hin He]].
    apply filter_In in Hin as [_ Hne]. now rewrite He in Hne.
  - intros p Hin. apply filter_In in Hin as [_ Hne].
    apply negb_true_iff, N.eqb_neq in Hne. exact Hne.
  - intros l Hin. apply filter_In in Hin as [_ Hne].
    apply negb_true_iff, N.eqb_neq in Hne. exact Hne.
Qed.

Lemma createEvent_reachable (st : Store) (account : User.t) (b : EventBody.t) :
  reachable st -> reachable (fst (createEvent st account b)).
Proof.
  intros H. unfold createEvent.
  destruct (requireAdmin account); [exact H|].
  destruct (orNull (EventBody.eventName b)) as [n|]; [|exact H].
  destruct (orNull (EventBody.county b)) as [c|]; [|exact H].
  match goal with
  | |- context [insertEvent ?row st] =>
      destruct (insertEvent row st) as [[st' e]|] eqn:E; [|exact H];
      apply (reachable_applyOp st (InsertEvent row)) in H
  end.
  unfold applyOp in H; cbn in H. now rewrite E in H.
Qed.

Lemma deleteEvent_reachable (st : Store) (account : User.t) (eventId : IdText) :
  reachable st -> reachable (fst (deleteEvent st account eventId)).
Proof.
  intros H. unfold deleteEvent.
  destruct (requireAdmin account); [exact H|].
  destruct eventId as [eventId|t]; [|exact H].
  destruct (findEvent eventId st) as [event|]; [|exact H].
  destruct (negb _); [exact H|].
  destruct (removeEvent _ st) as [st'|] eqn:E; [|exact H].
  cbn. apply (reachable_applyOp st (RemoveEvent (Event.eventId event))) in H.
  unfold applyOp in H; cbn in H. now rewrite E in H.
Qed.

(** The scenario of the spec: owner O creates the event; another owner and
    O's own delegate are refused its deletion; O deletes it while it has no
    participant. *)
Lemma deleteEvent_scenario :
  createEvent emptyStore owner rally
  = (stRally, {| status := 201; message := "Event created successfully";
                 payload := EventPayload rallyEvent |})
  /\ status (snd (deleteEvent stRally otherOwner (Uuid 1))) = 403
  /\ checkEventAccess rallyEvent clerk = true
  /\ status (snd (deleteEvent stRally clerk (Uuid 1))) = 403
  /\ deleteEvent stRally owner (Uuid 1)
     = ({| events := []; participants := []; checkInLogs := []; nextId := 2 |},
        reply 200 "Event deleted successfully").
Proof.
  repeat split.
Qed.

(** C9, at the failing input: owner O created event 1 and one participant
    was checked in.  O's request to delete the event is answered 500, and
    the event, the participant and the log are still there. *)
Theorem deleteEvent_after_checkin :
  option_map Event.createdById (findEvent 1 stCheckedIn) = Some (User.id owner)
  /\ deleteEvent stCheckedIn owner (Uuid 1) = (stCheckedIn, internalServerError)
  /\ status internalServerError = 500
  /\ List.length (participants stCheckedIn) = 1%nat
  /\ List.length (checkInLogs stCheckedIn) = 1%nat.
Proof.
  repeat split.
Qed.

(** ** Check-in under concurrency *)

(** C2, amended: a request whose pre-check found no log for the day goes on
    to insert one; when another request has inserted the log in between,
    the insert is refused by the unique index, the request is answered 500
    "Internal server error", not 400 or 409, and no second log is
    written. *)
Theorem checkin_unique_violation_answered_500 :
  forall (a : Attempt) (f : Checkin.fields) (p : Participant.t)
         (st0 st : Store) (l : CheckInLog.t),
    findCheckIn (Participant.id p) (Checkin.f_eventId f)
      (setHours0 (tToday (clock a))) st0 = None ->
    findCheckIn (Participant.id p) (Checkin.f_eventId f)
      (setHours0 (tToday (clock a))) st = Some l ->
    checkinStep a (AtFindCheckIn f p) st0
    = (st0, AtSaveCheckIn f p (setHours0 (tToday (clock a))))
    /\ insertCheckInLog
         (createCheckInLog p f (user a) (setHours0 (tToday (clock a))) (clock a)) st
       = Err UniqueViolation
    /\ checkinStep a (AtSaveCheckIn f p (setHours0 (tToday (clock a)))) st
       = (st, Finished internalServerError)
    /\ status internalServerError = 500.
Proof.
  intros a f p st0 st l Hpre Hrow.
  assert (Hdup : insertCheckInLog
                   (createCheckInLog p f (user a) (setHours0 (tToday (clock a)))
                      (clock a)) st = Err UniqueViolation).
  { apply insertCheckInLog_duplicate.
    apply findCheckIn_Some in Hrow as [Hin Hk].
    change (In (Participant.id p, Checkin.f_eventId f, setHours0 (tToday (clock a)))
              (map CheckInLog.key (checkInLogs st))).
    rewrite <- Hk. now apply in_map. }
  cbn [checkinStep]. rewrite Hpre, Hdup. auto.
Qed.

Lemma checkin_unique_violation_answered_500_witness :
  checkinStep {| user := owner; body := aminah; clock := nextDayLater |}
    (AtFindCheckIn aminahFields aminahRow) (store raceChecked)
  = (store raceChecked,
     AtSaveCheckIn aminahFields aminahRow (setHours0 1700086403000))
  /\ insertCheckInLog
       (createCheckInLog aminahRow aminahFields owner
          (setHours0 1700086403000) nextDayLater)
       (store raceInserted)
     = Err UniqueViolation
  /\ checkinStep {| user := owner; body := aminah; clock := nextDayLater |}
       (AtSaveCheckIn aminahFields aminahRow (setHours0 1700086403000))
       (store raceInserted)
     = (store raceInserted, Finished internalServerError)
  /\ status internalServerError = 500.
Proof.
  apply (checkin_unique_violation_answered_500
           {| user := owner; body := aminah; clock := nextDayLater |}
           aminahFields aminahRow (store raceChecked) (store raceInserted)
           nextDayLog);
    reflexivity.
Defined.

(** C2, as stated, fails.  Two requests check the same person in on the
    same day; both pass the pre-check before either inserts.  The first
    insert goes through; the second is refused by the unique index and its
    request is answered 500, neither 400 nor 409. *)
Lemma checkin_lost_race_answered_500 :
  map snd (threads raceChecked)
  = [AtSaveCheckIn aminaFields aminaRow (setHours0 1700086400000);
     AtSaveCheckIn aminahFields aminahRow (setHours0 1700086403000)]
  /\ map snd (threads raceInserted)
     = [Finished (created nextDayLog aminaRow);
        AtSaveCheckIn aminahFields aminahRow (setHours0 1700086403000)]
  /\ insertCheckInLog
       (createCheckInLog aminahRow aminahFields owner
          (setHours0 1700086403000) nextDayLater)
       (store raceInserted)
     = Err UniqueViolation
  /\ map snd (threads raceEnded)
     = [Finished (created nextDayLog aminaRow); Finished internalServerError]
  /\ store raceEnded = store raceInserted
  /\ status internalServerError <> 400
  /\ status internalServerError <> 409.
Proof.
  repeat split; discriminate.
Qed.

(** *** The invariant of concurrent check-ins *)


















(** When the person has no participant row yet, the unique index does not
    help: two first check-ins at the same time each find no participant,
    each create one, and both are answered 201. *)
Lemma concurrent_first_checkins_two_participants :
  findParticipant 1 "123" stRally = None
  /\ map (fun t => option_map status (responseOf t))
       (threads (runSchedule bothPastTheLookup (start firstVisits stRally)))
     = [Some 201; Some 201]
  /\ map Participant.id
       (participants (store (runSchedule bothPastTheLookup (start firstVisits stRally))))
     = [2; 3]
  /\ map CheckInLog.key
       (checkInLogs (store (runSchedule bothPastTheLookup (start firstVisits stRally))))
     = [(2, 1, setHours0 1700000000000); (3, 1, setHours0 1700000000000)].
Proof.
  repeat split.
Qed.

(** * The read routes *)

(** ** Listing and fetching events *)

Lemma createdBy_access (account : User.t) (creator : uuid) :
  (User.role account = ADMIN /\ creator = User.id account)
  \/ (User.role account = USER /\ User.adminId account = Some creator) ->
  forall e, (Event.createdById e =? creator) = checkEventAccess e account.
Proof.
  intros [[Hr ->]|[Hr Ha]] e; unfold checkEventAccess; rewrite Hr;
    [reflexivity | now rewrite Ha].
Qed.

Lemma getEvents_admitted (st : Store) (account : User.t) (event : Event.t) :
  checkEventAccess event account = true ->
  getEvents st account
  = Data (rev (filter (fun e => checkEventAccess e account) (events st))).
Proof.
  intros Hacc. unfold getEvents, eventsCreatedBy.
  unfold checkEventAccess in Hacc.
  destruct (User.role account) eqn:Hr.
  - do 2 f_equal. apply filter_ext, createdBy_access. now left.
  - destruct (User.adminId account) as [a|] eqn:Ha; [|discriminate].
    do 2 f_equal. apply filter_ext, createdBy_access. now right.
Qed.

(** The listing of [GET /events] is the events [checkEventAccess] admits,
    newest first; only a USER account without [adminId] is refused, and
    [checkEventAccess] admits it to nothing. *)
Theorem getEvents_lists_the_accessible_events :
  forall (st : Store) (account : User.t),
    (getEvents st account
     = Data (rev (filter (fun e => checkEventAccess e account) (events st)))
     /\ (User.role account = ADMIN \/ User.adminId account <> None))
    \/ (getEvents st account = Refused (reply 403 "User is not assigned to an admin")
        /\ User.role account = USER
        /\ User.adminId account = None
        /\ forall e, checkEventAccess e account = false).
Proof.
  intros st account. unfold getEvents, eventsCreatedBy.
  destruct (User.role account) eqn:Hr.
  - left. split; [|now left]. do 2 f_equal. apply filter_ext.
    apply createdBy_access. now left.
  - destruct (User.adminId account) as [a|] eqn:Ha.
    + left. split; [|right; discriminate]. do 2 f_equal. apply filter_ext.
      apply createdBy_access. now right.
    + right. repeat split. intros e. unfold checkEventAccess. now rewrite Hr, Ha.
Qed.

(** [GET /events/:eventId] has its own access test; it admits an account to
    an event exactly when [checkEventAccess] does.  An identifier that is
    no uuid is answered 500, a uuid of no event 404, an event the account
    has no access to 403; and an event the route returns is one of the
    listing of [GET /events]. *)
Theorem getEvent_agrees_with_checkEventAccess :
  forall (st : Store) (account : User.t) (eventId : IdText),
    getEvent st account eventId
    = match eventId with
      | NotUuid _ => Refused internalServerError
      | Uuid id =>
          match findEvent id st with
          | None => Refused (reply 404 "Event not found")
          | Some event =>
              if checkEventAccess event account then Data event
              else Refused (reply 403 "Access denied")
          end
      end
    /\ (forall event, getEvent st account eventId = Data event ->
          exists listed, getEvents st account = Data listed /\ In event listed).
Proof.
  intros st account eventId.
  assert (Heq : getEvent st account eventId
                = match eventId with
                  | NotUuid _ => Refused internalServerError
                  | Uuid id =>
                      match findEvent id st with
                      | None => Refused (reply 404 "Event not found")
                      | Some event =>
                          if checkEventAccess event account then Data event
                          else Refused (reply 403 "Access denied")
                      end
                  end).
  { unfold getEvent, checkEventAccess.
    destruct eventId as [id|t]; [|reflexivity].
    destruct (findEvent id st) as [event|]; [|reflexivity].
    destruct (User.role account).
    - now destruct (Event.createdById event =? User.id account).
    - destruct (User.adminId account) as [a|]; [|reflexivity].
      now destruct (Event.createdById event =? a). }
  split; [exact Heq|].
  intros event Hget. rewrite Heq in Hget.
  destruct eventId as [id|t]; [|discriminate].
  destruct (findEvent id st) as [e|] eqn:Hfind; [|discriminate].
  destruct (checkEventAccess e account) eqn:Hacc; [|discriminate].
  injection Hget as ->.
  eexists. split; [exact (getEvents_admitted st account event Hacc)|].
  apply in_rev. rewrite rev_involutive. apply filter_In.
  apply find_some in Hfind. tauto.
Qed.

(** ** The check-ins of a day *)

Lemma insertNewest_perm (l : CheckInLog.t) (ls : list CheckInLog.t) :
  Permutation (insertNewest l ls) (l :: ls).
Proof.
  induction ls as [|x ls IH]; cbn; [reflexivity|].
  destruct (CheckInLog.checkedInAt x <=? CheckInLog.checkedInAt l)%Z;
    [reflexivity|].
  rewrite IH. apply perm_swap.
Qed.

Lemma newestFirst_perm (ls : list CheckInLog.t) : Permutation (newestFirst ls) ls.
Proof.
  induction ls as [|x ls IH]; cbn; [reflexivity|].
  rewrite insertNewest_perm. now constructor.
Qed.

Lemma insertNewest_sorted (l : CheckInLog.t) (ls : list CheckInLog.t) :
  StronglySorted newerOrSame ls -> StronglySorted newerOrSame (insertNewest l ls).
Proof.
  induction 1 as [|x ls Hs IH Hx]; cbn.
  - repeat constructor.
  - destruct (CheckInLog.checkedInAt x <=? CheckInLog.checkedInAt l)%Z eqn:E.
    + apply Z.leb_le in E. constructor; [now constructor|].
      constructor; [exact E|].
      eapply Forall_impl; [|exact Hx]. unfold newerOrSame. intros y Hy. lia.
    + apply Z.leb_gt in E. constructor; [exact IH|].
      eapply Permutation_Forall; [symmetry; apply insertNewest_perm|].
      constructor; [unfold newerOrSame; lia | exact Hx].
Qed.

Lemma newestFirst_sorted (ls : list CheckInLog.t) :
  StronglySorted newerOrSame (newestFirst ls).
Proof.
  induction ls as [|x ls IH]; cbn; [constructor | now apply insertNewest_sorted].
Qed.

Lemma checkInsOn_In (eid : uuid) (day : Z) (st : Store) (l : CheckInLog.t) :
  In l (checkInsOn eid day st)
  <-> In l (checkInLogs st)
      /\ CheckInLog.eventId l = eid /\ CheckInLog.checkInDate l = day.
Proof.
  unfold checkInsOn. split.
  - intros H. apply (Permutation_in _ (newestFirst_perm _)) in H.
    apply filter_In in H as [Hin Hp].
    apply andb_true_iff in Hp as [He Hd].
    apply N.eqb_eq in He. apply Z.eqb_eq in Hd. auto.
  - intros (Hin & He & Hd).
    apply (Permutation_in _ (Permutation_sym (newestFirst_perm _))).
    apply filter_In. split; [exact Hin|].
    apply andb_true_iff. split; [now apply N.eqb_eq | now apply Z.eqb_eq].
Qed.

(** Logs of one event and one day with distinct triples have distinct
    participants. *)
Lemma NoDup_participants_of_day (eid : uuid) (day : Z) (ls : list CheckInLog.t) :
  NoDup (map CheckInLog.key ls) ->
  (forall l, In l ls -> CheckInLog.eventId l = eid /\ CheckInLog.checkInDate l = day) ->
  NoDup (map CheckInLog.participantId ls).
Proof.
  induction ls as [|x ls IH]; cbn; intros Hnd Hall; [constructor|].
  inversion Hnd as [|? ? Hx Hls]; subst.
  constructor; [|apply IH; auto].
  intros Hin. apply Hx.
  apply in_map_iff in Hin as [y [Hy Hyin]].
  apply in_map_iff. exists y. split; [|exact Hyin].
  destruct (Hall x (or_introl eq_refl)) as [He Hd].
  destruct (Hall y (or_intror Hyin)) as [He' Hd'].
  unfold CheckInLog.key. congruence.
Qed.

Lemma withParticipants_Some (logs : list CheckInLog.t) (st : Store) :
  (forall l, In l logs -> hasParticipant (CheckInLog.participantId l) st = true) ->
  exists entries,
    withParticipants logs st = Some entries
    /\ map entryLog entries = logs
    /\ Forall (fun en =>
                 In (entryOfParticipant en) (participants st)
                 /\ Participant.id (entryOfParticipant en)
                    = CheckInLog.participantId (entryLog en)) entries.
Proof.
  induction logs as [|l logs IH]; cbn; intros Hall.
  - exists []. repeat split. constructor.
  - destruct IH as (entries & -> & Hmap & Hok); [auto|].
    destruct (find _ (participants st)) as [p|] eqn:Hfind.
    + eexists. split; [reflexivity|]. cbn. split; [now rewrite Hmap|].
      constructor; [|exact Hok]. cbn.
      apply find_some in Hfind as [Hin Hid]. apply N.eqb_eq in Hid. auto.
    + specialize (Hall l (or_introl eq_refl)).
      unfold hasParticipant in Hall. apply find_existsb in Hfind. congruence.
Qed.

(** [GET /participants/event/:eventId/date/:date], for an account with
    access to the event, on a reachable store: a date that does not parse
    is answered 400; otherwise the answer is never an error, it holds
    exactly the logs of the event whose [checkInDate] is the midnight of
    that date, newest [checkedInAt] first, [count] is their number, no
    participant appears twice, and each log comes with the participant it
    points to. *)
Theorem getCheckInsOnDate_lists_the_day :
  forall (st : Store) (account : User.t) (eventId : uuid) (event : Event.t)
         (date : DateText),
    reachable st ->
    findEvent eventId st = Some event ->
    checkEventAccess event account = true ->
    match newDate date with
    | InvalidDate =>
        getCheckInsOnDate st account (Uuid eventId) date
        = Refused (reply 400 "Invalid date format. Use YYYY-MM-DD")
    | TimeValue t =>
        exists c,
          getCheckInsOnDate st account (Uuid eventId) date = Data c
          /\ count c = List.length (checkIns c)
          /\ (forall l, In l (map entryLog (checkIns c))
                        <-> In l (checkInLogs st)
                            /\ CheckInLog.eventId l = eventId
                            /\ CheckInLog.checkInDate l = setHours0 t)
          /\ StronglySorted newerOrSame (map entryLog (checkIns c))
          /\ NoDup (map (fun en => CheckInLog.participantId (entryLog en))
                      (checkIns c))
          /\ Forall (fun en =>
                       In (entryOfParticipant en) (participants st)
                       /\ Participant.id (entryOfParticipant en)
                          = CheckInLog.participantId (entryLog en))
               (checkIns c)
    end.
Proof.
  intros st account eventId event date Hr Hev Hacc.
  unfold getCheckInsOnDate. rewrite Hev, Hacc. cbn [negb].
  destruct (newDate date) as [t|]; [|reflexivity].
  pose proof (reachable_wf _ Hr) as [Hu Hl _].
  destruct (withParticipants_Some (checkInsOn eventId (setHours0 t) st) st)
    as (entries & -> & Hmap & Hok).
  { intros l Hin. apply checkInsOn_In in Hin as (Hin & _). auto. }
  eexists. split; [reflexivity|]. cbn [count checkIns].
  split; [now rewrite <- Hmap, length_map|].
  split; [intros l; rewrite Hmap; apply checkInsOn_In|].
  split; [rewrite Hmap; apply newestFirst_sorted|].
  split; [|exact Hok].
  rewrite <- (map_map entryLog CheckInLog.participantId), Hmap.
  apply (NoDup_participants_of_day eventId (setHours0 t)).
  - unfold checkInsOn.
    eapply Permutation_NoDup;
      [apply Permutation_map, Permutation_sym, newestFirst_perm|].
    now apply NoDup_map_filter.
  - intros l Hin. apply checkInsOn_In in Hin. tauto.
Qed.

(** ** From a check-in to the listings *)

Lemma NoDup_map_eq {A B : Type} (f : A -> B) (l : list A) (x y : A) :
  NoDup (map f l) -> In x l -> In y l -> f x = f y -> x = y.
Proof.
  induction l as [|z l IH]; cbn; intros Hnd Hx Hy Hf; [contradiction|].
  inversion Hnd as [|? ? Hz Hl]; subst.
  destruct Hx as [->|Hx], Hy as [->|Hy]; auto.
  - contradiction Hz. rewrite Hf. now apply in_map.
  - contradiction Hz. rewrite <- Hf. now apply in_map.
Qed.

Lemma applyOp_ids (st : Store) (op : StoreOp) :
  wf st ->
  NoDup (map Participant.id (participants st)) ->
  NoDup (map Participant.id (participants (applyOp st op))).
Proof.
  intros [_ _ Hp] Hnd. unfold applyOp.
  destruct (runOp op st) as [st'|] eqn:Hrun; [|exact Hnd].
  destruct op as [e|p|p|l|eid]; cbn in Hrun.
  - unfold insertEvent in Hrun.
    destruct (Event.columns_ok e); cbn in Hrun; [|discriminate].
    now injection Hrun as <-.
  - destruct (insertParticipant p st) as [[st1 p']|] eqn:Hins; [|discriminate].
    cbn in Hrun. injection Hrun as <-.
    apply insertParticipant_Ok in Hins as (_ & _ & -> & _ & -> & _).
    rewrite map_app. cbn.
    apply NoDup_app; [assumption | repeat constructor; intros [] |].
    intros i Hi [<-|[]].
    apply in_map_iff in Hi as [q [Hq Hin]]. specialize (Hp q Hin). lia.
  - apply updateParticipant_Ok in Hrun as (_ & _ & _ & -> & _).
    now rewrite update_ids.
  - destruct (insertCheckInLog l st) as [[st1 l']|] eqn:Hins; [|discriminate].
    cbn in Hrun. injection Hrun as <-.
    apply insertCheckInLog_Ok in Hins as (_ & _ & _ & _ & _ & -> & _).
    exact Hnd.
  - apply removeEvent_Ok in Hrun as (_ & _ & -> & _). exact Hnd.
Qed.

(** The identifiers of the participants of a reachable store are distinct. *)
Lemma reachable_ids (st : Store) :
  reachable st -> NoDup (map Participant.id (participants st)).
Proof.
  intros [ops <-].
  assert (H : forall st, wf st -> NoDup (map Participant.id (participants st)) ->
                         NoDup (map Participant.id (participants (runOps ops st)))).
  { induction ops as [|op ops IH]; intros st Hwf Hnd; cbn; [exact Hnd|].
    apply IH; [now apply applyOp_wf | now apply applyOp_ids]. }
  apply H; [apply emptyStore_wf | constructor].
Qed.

(** What an answer 201 of the check-in handler tells about its run. *)
Lemma checkin_created (st : Store) (account : User.t) (b : Checkin.body)
    (clk : Clock) (st1 : Store) (r : Response) :
  checkin st account b clk = (st1, r) ->
  status r = 201 ->
  exists f event s1 p log,
    Checkin.required b = Some f
    /\ findEvent (Checkin.f_eventId f) st = Some event
    /\ checkEventAccess event account = true
    /\ resolveParticipant b f st = Ok (s1, p)
    /\ findCheckIn (Participant.id p) (Checkin.f_eventId f)
         (setHours0 (tToday clk)) s1 = None
    /\ insertCheckInLog
         (createCheckInLog p f account (setHours0 (tToday clk)) clk) s1
       = Ok (st1, log)
    /\ r = created log p.
Proof.
  destruct (Checkin.required b) as [f|] eqn:Hreq;
    [rewrite (checkin_fields _ _ _ _ _ Hreq)
    |rewrite (checkin_no_fields _ _ _ _ Hreq); intros H; injection H as <- <-;
     destruct (Checkin.missing b); discriminate].
  destruct (findEvent _ st) as [event|] eqn:Hev;
    [|intros H; injection H as <- <-; discriminate].
  destruct (checkEventAccess event account) eqn:Hacc; cbn [negb];
    [|intros H; injection H as <- <-; discriminate].
  destruct (resolveParticipant b f st) as [[s1 p]|] eqn:Hres;
    [|intros H; injection H as <- <-; discriminate].
  destruct (findCheckIn _ _ _ s1) eqn:Hpre;
    [intros H; injection H as <- <-; discriminate|].
  destruct (insertCheckInLog _ s1) as [[s2 log]|] eqn:Hins;
    [|intros H; injection H as <- <-; discriminate].
  intros H _. injection H as <- <-.
  exists f, event, s1, p, log. auto 10.
Qed.

(** A check-in that was answered 201 shows in both listings: every account
    with access to the event finds the participant of the answer, with the
    new log among its logs, under [GET /participants/event/:eventId], and
    finds the log with that participant under the date route for every
    date that falls on the day of the check-in. *)
Theorem checkin_then_listed :
  forall (st : Store) (account : User.t) (b : Checkin.body) (clk : Clock)
         (st1 : Store) (log : CheckInLog.t) (p : Participant.t),
    reachable st ->
    checkin st account b clk = (st1, created log p) ->
    exists event,
      findEvent (CheckInLog.eventId log) st1 = Some event
      /\ checkEventAccess event account = true
      /\ forall reader,
           checkEventAccess event reader = true ->
           (exists entries,
               getParticipants st1 reader (Uuid (CheckInLog.eventId log)) = Data entries
               /\ In (entryOf st1 p) entries
               /\ In log (entryCheckInLogs (entryOf st1 p))
               /\ (1 <= totalCheckIns (entryOf st1 p))%nat)
           /\ (forall date t,
                 newDate date = TimeValue t ->
                 setHours0 t = setHours0 (tToday clk) ->
                 exists c,
                   getCheckInsOnDate st1 reader (Uuid (CheckInLog.eventId log)) date = Data c
                   /\ In {| entryLog := log; entryOfParticipant := p |} (checkIns c)).
Proof.
  intros st account b clk st1 log p Hr Hc.
  assert (Hr1 : reachable st1).
  { replace st1 with (fst (checkin st account b clk)) by (now rewrite Hc).
    now apply checkin_reachable. }
  destruct (checkin_created _ _ _ _ _ _ Hc eq_refl)
    as (f & event & s1 & p' & log' & Hreq & Hev & Hacc & Hres & _ & Hins & Heq).
  injection Heq as <- <-.
  apply resolveParticipant_Ok in Hres as (Hfind & Hev1 & _ & _ & _).
  apply insertCheckInLog_Ok in Hins
    as (_ & _ & _ & -> & Hev2 & Hps2 & Hls2 & _).
  apply findParticipant_Some in Hfind as (Hin & Hpe & _).
  rewrite <- Hps2 in Hin.
  set (log := CheckInLog.with_id (nextId s1)
                (createCheckInLog p f account (setHours0 (tToday clk)) clk)) in *.
  assert (Hlog : In log (checkInLogs st1))
    by (rewrite Hls2, in_app_iff; right; now left).
  assert (Hev' : findEvent (Checkin.f_eventId f) st1 = Some event)
    by (unfold findEvent; now rewrite Hev2, Hev1).
  exists event. split; [exact Hev'|]. split; [exact Hacc|].
  intros reader Hread. split.
  - unfold getParticipants. cbn [log CheckInLog.eventId CheckInLog.with_id
      createCheckInLog]. rewrite Hev', Hread. cbn [negb].
    eexists. split; [reflexivity|].
    assert (Hmine : In log (logsOf (Participant.id p) st1)).
    { apply filter_In. split; [exact Hlog|]. cbn. apply N.eqb_refl. }
    split; [|split; [exact Hmine|]].
    + apply in_map, in_rev. rewrite rev_involutive. apply filter_In.
      split; [exact Hin | now apply N.eqb_eq].
    + cbn. destruct (logsOf (Participant.id p) st1); [contradiction | cbn; lia].
  - intros date t Hd Hday.
    unfold getCheckInsOnDate. cbn [log CheckInLog.eventId CheckInLog.with_id
      createCheckInLog]. rewrite Hev', Hread, Hd. cbn [negb].
    pose proof (reachable_wf _ Hr1) as [_ Hl _].
    destruct (withParticipants_Some
                (checkInsOn (Checkin.f_eventId f) (setHours0 t) st1) st1)
      as (entries & -> & Hmap & Hok).
    { intros l Hl'. apply checkInsOn_In in Hl' as (Hl' & _). auto. }
    eexists. split; [reflexivity|]. cbn [checkIns].
    assert (Hlisted : In log (map entryLog entries)).
    { rewrite Hmap. apply checkInsOn_In. rewrite Hday. now repeat split. }
    apply in_map_iff in Hlisted as [[l q] [Hl' Hen]]. cbn in Hl'. subst l.
    rewrite Forall_forall in Hok. destruct (Hok _ Hen) as [Hq Hqid]. cbn in Hq, Hqid.
    replace q with p in Hen; [exact Hen|].
    apply (NoDup_map_eq Participant.id (participants st1));
      [now apply reachable_ids | exact Hin | exact Hq | now rewrite Hqid].
Qed.

Lemma getCheckInsOnDate_lists_the_day_witness :
  exists c,
    getCheckInsOnDate stCheckedIn clerk (Uuid 1) november14 = Data c
    /\ count c = List.length (checkIns c)
    /\ (forall l, In l (map entryLog (checkIns c))
                  <-> In l (checkInLogs stCheckedIn)
                      /\ CheckInLog.eventId l = 1
                      /\ CheckInLog.checkInDate l = setHours0 1699920000000)
    /\ StronglySorted newerOrSame (map entryLog (checkIns c))
    /\ NoDup (map (fun en => CheckInLog.participantId (entryLog en)) (checkIns c))
    /\ Forall (fun en =>
                 In (entryOfParticipant en) (participants stCheckedIn)
                 /\ Participant.id (entryOfParticipant en)
                    = CheckInLog.participantId (entryLog en))
         (checkIns c).
Proof.
  apply (getCheckInsOnDate_lists_the_day stCheckedIn clerk 1 rallyEvent november14).
  - exists opsCheckedIn. reflexivity.
  - reflexivity.
  - reflexivity.
Defined.

Lemma checkin_then_listed_witness :
  exists event,
    findEvent (CheckInLog.eventId firstLog) stCheckedIn = Some event
    /\ checkEventAccess event clerk = true
    /\ forall reader,
         checkEventAccess event reader = true ->
         (exists entries,
             getParticipants stCheckedIn reader (Uuid (CheckInLog.eventId firstLog))
             = Data entries
             /\ In (entryOf stCheckedIn aminaRow) entries
             /\ In firstLog (entryCheckInLogs (entryOf stCheckedIn aminaRow))
             /\ (1 <= totalCheckIns (entryOf stCheckedIn aminaRow))%nat)
         /\ (forall date t,
               newDate date = TimeValue t ->
               setHours0 t = setHours0 (tToday dayD) ->
               exists c,
                 getCheckInsOnDate stCheckedIn reader (Uuid (CheckInLog.eventId firstLog)) date
                 = Data c
                 /\ In {| entryLog := firstLog; entryOfParticipant := aminaRow |}
                      (checkIns c)).
Proof.
  apply (checkin_then_listed stRally clerk amina dayD stCheckedIn firstLog aminaRow).
  - exists [InsertEvent rallyRow]. reflexivity.
  - reflexivity.
Defined.

(** ** Voter lookup: when the registry is asked *)

(** The external registry is asked exactly when the request names an event
    that exists and has a county, gives an identity number, and comes from
    an account [checkEventAccess] admits; it is asked for that number with
    the filters of the event. *)
Theorem searchPlan_calls_the_gateway_iff :
  forall (st : Store) (account : User.t) (b : SearchBody.t)
         (idNumber : string) (filters : Filters),
    searchPlan st account b = CallGateway idNumber filters
    <-> exists eventId event,
          SearchBody.eventId b = Some (Uuid eventId)
          /\ orNull (SearchBody.idNumber b) = Some idNumber
          /\ findEvent eventId st = Some event
          /\ checkEventAccess event account = true
          /\ Event.county event <> ""
          /\ filters = filtersOf event.
Proof.
  intros st account b idNumber filters. unfold searchPlan. split.
  - destruct (SearchBody.eventId b) as [[eid|t]|]; [| |discriminate].
    2:{ destruct (orNull (SearchBody.idNumber b)); [|discriminate].
        destruct (t =? "")%string; discriminate. }
    destruct (orNull (SearchBody.idNumber b)) as [i|]; [|discriminate].
    destruct (findEvent eid st) as [event|] eqn:Hev; [|discriminate].
    destruct (checkEventAccess event account) eqn:Hacc; cbn [negb]; [|discriminate].
    destruct (Event.county event =? "")%string eqn:Hc; [discriminate|].
    intros H. injection H as <- <-.
    apply String.eqb_neq in Hc. exists eid, event. auto 10.
  - intros (eid & event & -> & -> & -> & -> & Hc & ->).
    apply String.eqb_neq in Hc. cbn [negb]. now rewrite Hc.
Qed.

(** The lookup is answered 200 exactly when the registry was asked and
    returned a record.  It is answered 500 in two cases and no other: the
    registry was asked and failed, with the message of the inner [catch];
    or the request has an idNumber and an eventId that is not empty and no
    uuid, on which the lookup of the event throws, with the message of the
    outer [catch].  A registry that finds nothing gives 404 "Participant
    not found". *)
Theorem search_status :
  forall (lookupVoter : Gateway) (st : Store) (account : User.t)
         (b : SearchBody.t),
    (status (search lookupVoter st account b) = 200
     <-> exists idNumber filters voterInfo,
           searchPlan st account b = CallGateway idNumber filters
           /\ lookupVoter idNumber filters = Match voterInfo)
    /\ (status (search lookupVoter st account b) = 500
        <-> (exists idNumber filters,
               searchPlan st account b = CallGateway idNumber filters
               /\ lookupVoter idNumber filters = LookupFailed)
            \/ (exists text idNumber,
                  SearchBody.eventId b = Some (NotUuid text) /\ text <> ""
                  /\ orNull (SearchBody.idNumber b) = Some idNumber))
    /\ ((exists idNumber filters,
           searchPlan st account b = CallGateway idNumber filters
           /\ lookupVoter idNumber filters = LookupFailed) ->
        search lookupVoter st account b
        = reply 500 "Error looking up voter information")
    /\ ((exists text idNumber,
           SearchBody.eventId b = Some (NotUuid text) /\ text <> ""
           /\ orNull (SearchBody.idNumber b) = Some idNumber) ->
        search lookupVoter st account b = internalServerError)
    /\ (forall idNumber filters,
          searchPlan st account b = CallGateway idNumber filters ->
          lookupVoter idNumber filters = NoMatch ->
          search lookupVoter st account b = reply 404 "Participant not found").
Proof.
  intros lookupVoter st account b.
  set (failed := exists idNumber filters,
                   searchPlan st account b = CallGateway idNumber filters
                   /\ lookupVoter idNumber filters = LookupFailed).
  set (thrown := exists text idNumber,
                   SearchBody.eventId b = Some (NotUuid text) /\ text <> ""
                   /\ orNull (SearchBody.idNumber b) = Some idNumber).
  assert (Hans : forall r, searchPlan st account b = Answer r ->
                           status r <> 200
                           /\ (status r = 500 -> thrown)
                           /\ (thrown -> r = internalServerError)).
  { unfold thrown, searchPlan. intros r.
    destruct (SearchBody.eventId b) as [[eid|t]|];
      destruct (orNull (SearchBody.idNumber b)) as [i|];
      try (intros H; injection H as <-;
           split; [discriminate|];
           split; [discriminate | intros (? & ? & ? & ? & ?); discriminate]).
    - destruct (findEvent eid st) as [event|];
        [|intros H; injection H as <-;
          split; [discriminate|];
          split; [discriminate | intros (? & ? & ? & ? & ?); discriminate]].
      destruct (negb (checkEventAccess event account));
        [intros H; injection H as <-;
         split; [discriminate|];
         split; [discriminate | intros (? & ? & ? & ? & ?); discriminate]|].
      destruct (Event.county event =? "")%string; [|discriminate].
      intros H; injection H as <-.
      split; [discriminate|].
      split; [discriminate | intros (? & ? & ? & ? & ?); discriminate].
    - destruct (t =? "")%string eqn:Et; intros H; injection H as <-.
      + apply String.eqb_eq in Et.
        split; [discriminate|]. split; [discriminate|].
        intros (t' & i' & Ht & Hne & _). injection Ht as <-. contradiction.
      + apply String.eqb_neq in Et.
        split; [discriminate|]. split; [|reflexivity].
        intros _. exists t, i. auto. }
  assert (Hcall : forall i f, searchPlan st account b = CallGateway i f -> ~ thrown).
  { unfold thrown, searchPlan. intros i f Hplan (t & i' & Ht & _ & Hi).
    rewrite Ht, Hi in Hplan. destruct (t =? "")%string; discriminate. }
  unfold search.
  destruct (searchPlan st account b) as [r|i f] eqn:Hplan.
  - destruct (Hans r eq_refl) as (H200 & H500 & Hthrown).
    split; [split; [intros H; contradiction
                   | intros (? & ? & ? & H & _); discriminate]|].
    split; [split; [intros H; right; auto
                   | intros [(? & ? & H & _)|H];
                     [discriminate | now rewrite (Hthrown H)]]|].
    split; [intros (? & ? & H & _); discriminate|].
    split; [exact Hthrown|].
    intros ? ? H. discriminate.
  - pose proof (Hcall i f eq_refl) as Hno.
    destruct (lookupVoter i f) as [v| |] eqn:Hgw; cbn.
    + split; [split; [intros _; exists i, f, v; auto | reflexivity]|].
      split; [split; [discriminate
                     | intros [(i' & f' & H & Hf)|H];
                       [injection H as <- <-; congruence | contradiction]]|].
      split; [intros (i' & f' & H & Hf); injection H as <- <-; congruence|].
      split; [intros H; contradiction|].
      intros i' f' H Hf. injection H as <- <-. congruence.
    + split; [split; [discriminate
                     | intros (i' & f' & v & H & Hf);
                       injection H as <- <-; congruence]|].
      split; [split; [discriminate
                     | intros [(i' & f' & H & Hf)|H];
                       [injection H as <- <-; congruence | contradiction]]|].
      split; [intros (i' & f' & H & Hf); injection H as <- <-; congruence|].
      split; [intros H; contradiction|].
      reflexivity.
    + split; [split; [discriminate
                     | intros (i' & f' & v & H & Hf);
                       injection H as <- <-; congruence]|].
      split; [split; [intros _; left; exists i, f; auto | reflexivity]|].
      split; [reflexivity|].
      split; [intros H; contradiction|].
      intros i' f' H Hf. injection H as <- <-. congruence.
Qed.

(** ** What a check-in changes *)

(** The store after a check-in, by its answer. *)
Lemma checkin_cases (st : Store) (account : User.t) (b : Checkin.body)
    (clk : Clock) :
  (fst (checkin st account b clk) = st
   /\ status (snd (checkin st account b clk)) <> 201)
  \/ exists f s1 p,
       Checkin.required b = Some f
       /\ resolveParticipant b f st = Ok (s1, p)
       /\ ((fst (checkin st account b clk) = s1
            /\ (snd (checkin st account b clk) = alreadyCheckedIn
                \/ snd (checkin st account b clk) = internalServerError))
           \/ status (snd (checkin st account b clk)) = 201).
Proof.
  destruct (Checkin.required b) as [f|] eqn:Hreq;
    [rewrite (checkin_fields _ _ _ _ _ Hreq)
    |rewrite (checkin_no_fields _ _ _ _ Hreq); left;
     split; [reflexivity | destruct (Checkin.missing b); discriminate]].
  destruct (findEvent _ st) as [event|]; [|left; split; [reflexivity|discriminate]].
  destruct (negb (checkEventAccess event account));
    [left; split; [reflexivity|discriminate]|].
  destruct (resolveParticipant b f st) as [[s1 p]|] eqn:Hres;
    [|left; split; [reflexivity|discriminate]].
  right. exists f, s1, p. split; [reflexivity|]. split; [exact Hres|].
  destruct (findCheckIn _ _ _ s1); [left; cbn; auto|].
  destruct (insertCheckInLog _ s1) as [[s2 l]|]; [right; reflexivity | left; cbn; auto].
Qed.

(** A check-in never touches the events.  It is answered 201 exactly when
    it appended a log, one log, at the end of the table: the log of the
    participant of the answer, for the day of the clock, recorded by the
    account of the request, which [checkEventAccess] admits to the event.
    Under every other answer the logs are as they were, and a request
    answered 403 or 404 leaves the whole store as it was. *)
Theorem checkin_effect :
  forall (st : Store) (account : User.t) (b : Checkin.body) (clk : Clock),
    events (fst (checkin st account b clk)) = events st
    /\ (status (snd (checkin st account b clk)) = 201 ->
        exists log p event,
          snd (checkin st account b clk) = created log p
          /\ checkInLogs (fst (checkin st account b clk)) = checkInLogs st ++ [log]
          /\ CheckInLog.key log
             = (Participant.id p, Event.eventId event, setHours0 (tToday clk))
          /\ CheckInLog.checkedInById log = User.id account
          /\ CheckInLog.checkedInAt log = tCheckedInAt clk
          /\ findEvent (Event.eventId event) st = Some event
          /\ checkEventAccess event account = true
          /\ In p (participants (fst (checkin st account b clk))))
    /\ (status (snd (checkin st account b clk)) <> 201 ->
        checkInLogs (fst (checkin st account b clk)) = checkInLogs st)
    /\ (status (snd (checkin st account b clk)) = 403
        \/ status (snd (checkin st account b clk)) = 404 ->
        fst (checkin st account b clk) = st).
Proof.
  intros st account b clk.
  destruct (checkin st account b clk) as [st1 r] eqn:Hc. cbn [fst snd].
  assert (H201 : status r = 201 ->
            exists log p event,
              r = created log p
              /\ checkInLogs st1 = checkInLogs st ++ [log]
              /\ CheckInLog.key log
                 = (Participant.id p, Event.eventId event, setHours0 (tToday clk))
              /\ CheckInLog.checkedInById log = User.id account
              /\ CheckInLog.checkedInAt log = tCheckedInAt clk
              /\ findEvent (Event.eventId event) st = Some event
              /\ checkEventAccess event account = true
              /\ In p (participants st1)
              /\ events st1 = events st).
  { intros Hs.
    destruct (checkin_created _ _ _ _ _ _ Hc Hs)
      as (f & event & s1 & p & log & _ & Hev & Hacc & Hres & _ & Hins & ->).
    apply resolveParticipant_Ok in Hres as (Hfind & Hev1 & Hls1 & _ & _).
    apply insertCheckInLog_Ok in Hins
      as (_ & _ & _ & -> & Hev2 & Hps2 & Hls2 & _).
    apply findParticipant_Some in Hfind as (Hin & _ & _).
    pose proof (findEvent_hasEvent _ _ _ Hev) as [_ Hid].
    exists (CheckInLog.with_id (nextId s1)
              (createCheckInLog p f account (setHours0 (tToday clk)) clk)), p, event.
    rewrite Hls2, Hls1, Hps2, Hev2, Hev1. unfold CheckInLog.key. cbn.
    rewrite Hid. auto 10. }
  pose proof (checkin_cases st account b clk) as Hcases. rewrite Hc in Hcases.
  cbn [fst snd] in Hcases.
  split; [|split; [|split]].
  - destruct Hcases as [[-> _]|(f & s1 & p & _ & Hres & [[-> _]|Hs])];
      [reflexivity | | ].
    + now apply resolveParticipant_Ok in Hres as (_ & -> & _).
    + destruct (H201 Hs) as (? & ? & ? & H). tauto.
  - intros Hs. destruct (H201 Hs) as (log & p & event & H).
    exists log, p, event. tauto.
  - intros Hs.
    destruct Hcases as [[-> _]|(f & s1 & p & _ & Hres & [[-> _]|Hs'])];
      [reflexivity | | contradiction].
    now apply resolveParticipant_Ok in Hres as (_ & _ & -> & _).
  - intros Hs.
    destruct Hcases as [[-> _]|(f & s1 & p & _ & Hres & [[_ [-> | ->]]|Hs'])];
      [reflexivity | | | ]; cbn in Hs; destruct Hs as [Hs|Hs];
      try discriminate; rewrite Hs' in Hs; discriminate.
Qed.

(** A check-in leaves the row of every other person, and of the same person
    at another event, in the table as it was. *)
Theorem checkin_keeps_other_participants :
  forall (st : Store) (account : User.t) (b : Checkin.body) (clk : Clock)
         (q : Participant.t),
    reachable st ->
    In q (participants st) ->
    (forall f, Checkin.required b = Some f ->
               Participant.eventId q <> Checkin.f_eventId f
               \/ Participant.idNumber q <> Checkin.f_idNumber f) ->
    In q (participants (fst (checkin st account b clk))).
Proof.
  intros st account b clk q Hr Hq Hother.
  assert (Hres : forall f s1 p, Checkin.required b = Some f ->
                   resolveParticipant b f st = Ok (s1, p) ->
                   In q (participants s1)).
  { intros f s1 p Hreq Hres.
    apply resolveParticipant_participants in Hres.
    destruct (findParticipant _ _ st) as [p0|] eqn:Hfind.
    - rewrite Hres. apply in_map_iff. exists q. split; [|exact Hq].
      destruct (Participant.id q =? Participant.id p0) eqn:E; [|reflexivity].
      apply N.eqb_eq in E.
      apply findParticipant_Some in Hfind as (Hin0 & He0 & Hi0).
      assert (q = p0)
        by (apply (NoDup_map_eq Participant.id (participants st));
            auto using reachable_ids).
      subst q. destruct (Hother f Hreq); contradiction.
    - rewrite Hres, in_app_iff. now left. }
  destruct (checkin_cases st account b clk)
    as [[-> _]|(f & s1 & p & Hreq & Hok & [[-> _]|Hs])]; [exact Hq | eauto |].
  destruct (checkin st account b clk) as [st1 r] eqn:Hc. cbn [fst snd] in *.
  destruct (checkin_created _ _ _ _ _ _ Hc Hs)
    as (f' & event & s1' & p' & log & Hreq' & _ & _ & Hres' & _ & Hins & _).
  apply insertCheckInLog_Ok in Hins as (_ & _ & _ & _ & _ & -> & _).
  eauto.
Qed.

Lemma checkin_keeps_other_participants_witness :
  In aminaRow (participants (fst (checkin stCheckedIn clerk juma nextDay))).
Proof.
  apply (checkin_keeps_other_participants stCheckedIn clerk juma nextDay aminaRow).
  - exists opsCheckedIn. reflexivity.
  - cbn. now left.
  - intros f H. injection H as <-. right. cbn. discriminate.
Defined.

(** * Requests served one after the other *)

Lemma checkin_events (st : Store) (account : User.t) (b : Checkin.body)
    (clk : Clock) :
  events (fst (checkin st account b clk)) = events st.
Proof.
  destruct (checkin_cases st account b clk)
    as [[-> _]|(f & s1 & p & _ & Hres & [[-> _]|Hs])]; [reflexivity | | ].
  - now apply resolveParticipant_Ok in Hres as (_ & -> & _).
  - destruct (checkin st account b clk) as [st1 r] eqn:Hc. cbn [fst snd] in *.
    destruct (checkin_created _ _ _ _ _ _ Hc Hs)
      as (f' & event & s1' & p' & log & _ & _ & _ & Hres' & _ & Hins & _).
    apply resolveParticipant_Ok in Hres' as (_ & Hev1 & _).
    apply insertCheckInLog_Ok in Hins as (_ & _ & _ & _ & -> & _).
    exact Hev1.
Qed.

Lemma serve_reachable (st : Store) (r : Request) :
  reachable st -> reachable (fst (serve st r)).
Proof.
  destruct r; cbn;
    [apply createEvent_reachable | apply deleteEvent_reachable
    | apply checkin_reachable].
Qed.

Lemma serveAll_reachable (rs : list Request) (st : Store) :
  reachable st -> reachable (serveAll rs st).
Proof.
  revert st. induction rs as [|r rs IH]; intros st H; cbn; [exact H|].
  apply IH, serve_reachable, H.
Qed.

Lemma served_reachable (st : Store) : served st -> reachable st.
Proof.
  intros [rs <-]. apply serveAll_reachable. now exists [].
Qed.

(** What [createEvent] and [deleteEvent] do to the store when they change
    it. *)
Lemma createEvent_store (st : Store) (account : User.t) (b : EventBody.t) :
  fst (createEvent st account b) = st
  \/ exists e,
       Event.eventName e <> "" /\ Event.county e <> ""
       /\ Event.createdById e = User.id account
       /\ Event.eventId e = nextId st
       /\ events (fst (createEvent st account b)) = events st ++ [e]
       /\ participants (fst (createEvent st account b)) = participants st
       /\ checkInLogs (fst (createEvent st account b)) = checkInLogs st
       /\ snd (createEvent st account b)
          = {| status := 201; message := "Event created successfully";
               payload := EventPayload e |}.
Proof.
  unfold createEvent.
  destruct (requireAdmin account); [now left|].
  destruct (orNull (EventBody.eventName b)) as [n|] eqn:Hn; [|now left].
  destruct (orNull (EventBody.county b)) as [c|] eqn:Hc; [|now left].
  unfold insertEvent.
  destruct (Event.columns_ok _); cbn; [|now left].
  right.
  exists (Event.with_id (nextId st)
            {| Event.eventId := 0; Event.eventName := n; Event.county := c;
               Event.constituency := orNull (EventBody.constituency b);
               Event.ward := orNull (EventBody.ward b);
               Event.createdById := User.id account |}).
  apply orNull_Some in Hn, Hc. cbn. repeat split; tauto.
Qed.

Lemma deleteEvent_store (st : Store) (account : User.t) (eventId : uuid) :
  fst (deleteEvent st account (Uuid eventId)) = st
  \/ (status (snd (deleteEvent st account (Uuid eventId))) = 200
      /\ existsb (fun p => Participant.eventId p =? eventId) (participants st) = false
      /\ events (fst (deleteEvent st account (Uuid eventId)))
         = filter (fun e => negb (Event.eventId e =? eventId)) (events st)
      /\ participants (fst (deleteEvent st account (Uuid eventId))) = participants st
      /\ checkInLogs (fst (deleteEvent st account (Uuid eventId)))
         = filter (fun l => negb (CheckInLog.eventId l =? eventId)) (checkInLogs st)).
Proof.
  unfold deleteEvent.
  destruct (requireAdmin account); [now left|].
  destruct (findEvent eventId st) as [event|] eqn:Hev; [|now left].
  destruct (negb _); [now left|].
  apply findEvent_hasEvent in Hev as [_ ->].
  destruct (removeEvent eventId st) as [st'|] eqn:Hrm; [|now left].
  right. cbn. apply removeEvent_Ok in Hrm. tauto.
Qed.

(** An identifier that is no uuid leaves the store as it was. *)
Lemma deleteEvent_NotUuid (st : Store) (account : User.t) (text : string) :
  fst (deleteEvent st account (NotUuid text)) = st
  /\ status (snd (deleteEvent st account (NotUuid text))) <> 200.
Proof.
  unfold deleteEvent. destruct (requireAdmin account) as [r|] eqn:Hr.
  - split; [reflexivity|]. unfold requireAdmin in Hr.
    destruct (User.role account); [discriminate|].
    injection Hr as <-. discriminate.
  - split; [reflexivity | discriminate].
Qed.

Lemma update_keys (st : Store) (p p' : Participant.t) :
  NoDup (map Participant.id (participants st)) ->
  In p (participants st) ->
  Participant.id p' = Participant.id p ->
  personKey p' = personKey p ->
  map (fun q => (Participant.id q, personKey q))
      (map (fun q => if Participant.id q =? Participant.id p then p' else q)
         (participants st))
  = map (fun q => (Participant.id q, personKey q)) (participants st).
Proof.
  intros Hnd Hin Hid Hkey. rewrite map_map. apply map_ext_in.
  intros q Hq. destruct (Participant.id q =? Participant.id p) eqn:E; [|reflexivity].
  apply N.eqb_eq in E.
  assert (q = p) by (apply (NoDup_map_eq Participant.id (participants st)); auto).
  subst q. now rewrite Hid, Hkey.
Qed.

(** The participants after a resolution: their identifiers and keys are
    those of before, with one more when the person was new. *)
Lemma resolveParticipant_keys (b : Checkin.body) (f : Checkin.fields)
    (st s1 : Store) (p1 : Participant.t) :
  NoDup (map Participant.id (participants st)) ->
  resolveParticipant b f st = Ok (s1, p1) ->
  personKey p1 = (Checkin.f_eventId f, Checkin.f_idNumber f)
  /\ match findParticipant (Checkin.f_eventId f) (Checkin.f_idNumber f) st with
     | Some _ =>
         map (fun q => (Participant.id q, personKey q)) (participants s1)
         = map (fun q => (Participant.id q, personKey q)) (participants st)
     | None =>
         participants s1 = participants st ++ [p1]
         /\ ~ In (personKey p1) (map personKey (participants st))
     end.
Proof.
  intros Hnd Hres.
  pose proof (resolveParticipant_participants _ _ _ _ _ Hres) as Hps.
  apply resolveParticipant_Ok in Hres as (Hfind1 & _).
  apply findParticipant_Some in Hfind1 as (_ & He1 & Hi1).
  split; [unfold personKey; now rewrite He1, Hi1|].
  destruct (findParticipant _ _ st) as [p|] eqn:Hfind.
  - apply findParticipant_Some in Hfind as (Hin & He & Hi).
    rewrite Hps. now apply update_keys.
  - split; [exact Hps|].
    intros Hin. apply in_map_iff in Hin as [q [Hk Hq]].
    unfold findParticipant in Hfind.
    apply find_existsb in Hfind.
    assert (Hex : existsb (fun p => (Participant.eventId p =? Checkin.f_eventId f)
                                    && (Participant.idNumber p =? Checkin.f_idNumber f)%string)
                    (participants st) = true).
    { apply existsb_exists. exists q. split; [exact Hq|].
      unfold personKey in Hk. rewrite He1, Hi1 in Hk. injection Hk as -> ->.
      now rewrite N.eqb_refl, String.eqb_refl. }
    congruence.
Qed.

Lemma emptyStore_tidy : tidy emptyStore.
Proof.
  split; cbn; [constructor | contradiction | contradiction].
Qed.

Lemma resolveParticipant_tidy (b : Checkin.body) (f : Checkin.fields)
    (st s1 : Store) (p1 : Participant.t) :
  reachable st -> tidy st ->
  resolveParticipant b f st = Ok (s1, p1) ->
  tidy s1.
Proof.
  intros Hr [Hperson Hevent Hlog] Hres.
  pose proof (resolveParticipant_keys _ _ _ _ _ (reachable_ids _ Hr) Hres)
    as [Hk1 Hcase].
  apply resolveParticipant_Ok in Hres as (_ & Hev1 & Hls1 & _ & _).
  destruct (findParticipant _ _ st) as [p|].
  - assert (Hkeys : map personKey (participants s1) = map personKey (participants st)).
    { pose proof (f_equal (map snd) Hcase) as Hkeys.
      rewrite !map_map in Hkeys. exact Hkeys. }
    split.
    + now rewrite Hkeys.
    + now rewrite Hev1.
    + rewrite Hls1. intros l Hl. destruct (Hlog l Hl) as (q & Hq & Hid & He).
      assert (Hin : In (Participant.id q, personKey q)
                      (map (fun q => (Participant.id q, personKey q)) (participants s1))).
      { rewrite Hcase. apply in_map_iff. eauto. }
      apply in_map_iff in Hin as [q' [Heq Hq']].
      unfold personKey in Heq. injection Heq as Hid' He' _.
      exists q'. split; [exact Hq'|]. split; congruence.
  - destruct Hcase as [Hps Hnew]. split.
    + rewrite Hps, map_app. cbn.
      apply NoDup_app; [assumption | repeat constructor; intros [] |].
      intros k Hk [<-|[]]. contradiction.
    + now rewrite Hev1.
    + rewrite Hls1, Hps. intros l Hl. destruct (Hlog l Hl) as (q & Hq & Hid & He).
      exists q. rewrite in_app_iff. auto.
Qed.

Lemma checkin_tidy (st : Store) (account : User.t) (b : Checkin.body)
    (clk : Clock) :
  reachable st -> tidy st -> tidy (fst (checkin st account b clk)).
Proof.
  intros Hr Ht.
  destruct (checkin_cases st account b clk)
    as [[-> _]|(f & s1 & p & _ & Hres & [[-> _]|Hs])]; [exact Ht | | ].
  - eapply resolveParticipant_tidy; eauto.
  - destruct (checkin st account b clk) as [st1 r] eqn:Hc. cbn [fst snd] in *.
    destruct (checkin_created _ _ _ _ _ _ Hc Hs)
      as (f' & event & s1' & p' & log & _ & _ & _ & Hres' & _ & Hins & _).
    pose proof (resolveParticipant_tidy _ _ _ _ _ Hr Ht Hres')
      as [Hperson Hevent Hlog].
    apply resolveParticipant_Ok in Hres' as (Hfind & _).
    apply findParticipant_Some in Hfind as (Hin & He & _).
    apply insertCheckInLog_Ok in Hins
      as (_ & _ & _ & -> & Hev2 & Hps2 & Hls2 & _).
    split.
    + now rewrite Hps2.
    + now rewrite Hev2.
    + rewrite Hls2, Hps2. intros l Hl.
      apply in_app_iff in Hl as [Hl|[<-|[]]]; [auto|].
      exists p'. cbn. auto.
Qed.

Lemma serve_tidy (st : Store) (r : Request) :
  reachable st -> tidy st -> tidy (fst (serve st r)).
Proof.
  intros Hr Ht. destruct r as [account b|account eid|account b clk]; cbn.
  - destruct (createEvent_store st account b)
      as [->|(e & Hn & Hc & _ & _ & Hev & Hps & Hls & _)]; [exact Ht|].
    destruct Ht as [Hperson Hevent Hlog]. split.
    + now rewrite Hps.
    + rewrite Hev. intros x Hx. apply in_app_iff in Hx as [Hx|[<-|[]]]; auto.
    + now rewrite Hls, Hps.
  - destruct eid as [eid|t];
      [|now rewrite (proj1 (deleteEvent_NotUuid st account t))].
    destruct (deleteEvent_store st account eid)
      as [->|(_ & _ & Hev & Hps & Hls)]; [exact Ht|].
    destruct Ht as [Hperson Hevent Hlog]. split.
    + now rewrite Hps.
    + rewrite Hev. intros x Hx. apply filter_In in Hx as [Hx _]. auto.
    + rewrite Hls, Hps. intros l Hl. apply filter_In in Hl as [Hl _]. auto.
  - now apply checkin_tidy.
Qed.

Lemma serveAll_tidy (rs : list Request) (st : Store) :
  reachable st -> tidy st -> tidy (serveAll rs st).
Proof.
  revert st. induction rs as [|r rs IH]; intros st Hr Ht; cbn; [exact Ht|].
  apply IH; [now apply serve_reachable | now apply serve_tidy].
Qed.

Lemma served_tidy (st : Store) : served st -> tidy st.
Proof.
  intros [rs <-]. apply serveAll_tidy; [now exists [] | apply emptyStore_tidy].
Qed.

(** Served one after the other, the routes keep one participant per event
    and identity number: two rows for the same person at the same event
    are the same row. *)
Theorem served_one_participant_per_person :
  forall (st : Store) (p q : Participant.t),
    served st ->
    In p (participants st) ->
    In q (participants st) ->
    Participant.eventId p = Participant.eventId q ->
    Participant.idNumber p = Participant.idNumber q ->
    p = q.
Proof.
  intros st p q Hs Hp Hq He Hi.
  apply (NoDup_map_eq personKey (participants st));
    [apply served_tidy, Hs | exact Hp | exact Hq |].
  unfold personKey. now rewrite He, Hi.
Qed.

(** An event made by [POST /events] has a county, so on a store the routes
    built, the lookup never refuses an event for lacking one. *)
Theorem served_events_have_county :
  forall (st : Store) (account : User.t) (b : SearchBody.t),
    served st ->
    (forall e, In e (events st) -> Event.eventName e <> "" /\ Event.county e <> "")
    /\ searchPlan st account b
       <> Answer (reply 400 "Event must have a county to perform voter lookup").
Proof.
  intros st account b Hs.
  pose proof (served_tidy _ Hs) as [_ Hevent _].
  split; [exact Hevent|].
  unfold searchPlan.
  destruct (SearchBody.eventId b) as [[eid|t]|]; [| |discriminate].
  2:{ destruct (orNull (SearchBody.idNumber b)); [|discriminate].
      destruct (t =? "")%string; discriminate. }
  destruct (orNull (SearchBody.idNumber b)) as [i|]; [|discriminate].
  destruct (findEvent eid st) as [event|] eqn:Hev; [|discriminate].
  destruct (negb (checkEventAccess event account)); [discriminate|].
  apply find_some in Hev as [Hin _].
  destruct (Hevent event Hin) as [_ Hc].
  apply String.eqb_neq in Hc. rewrite Hc. discriminate.
Qed.

(** ** What later requests cannot undo *)

Lemma find_app_some {A : Type} (g : A -> bool) (l l' : list A) (y : A) :
  find g l = Some y -> find g (l ++ l') = Some y.
Proof.
  induction l as [|x l IH]; cbn; [discriminate|].
  destruct (g x); auto.
Qed.

Lemma find_filter {A : Type} (g h : A -> bool) (l : list A) :
  (forall x, g x = true -> h x = true) ->
  find g (filter h l) = find g l.
Proof.
  intros Hgh. induction l as [|x l IH]; cbn; [reflexivity|].
  destruct (h x) eqn:Hh; cbn.
  - now rewrite IH.
  - destruct (g x) eqn:Hg; [|exact IH].
    rewrite (Hgh x Hg) in Hh. discriminate.
Qed.

Lemma deleteEvent_200 (st : Store) (account : User.t) (eventId : uuid) :
  status (snd (deleteEvent st account (Uuid eventId))) = 200 ->
  existsb (fun p => Participant.eventId p =? eventId) (participants st) = false.
Proof.
  unfold deleteEvent, requireAdmin.
  destruct (User.role account); [|discriminate].
  destruct (findEvent eventId st) as [event|] eqn:Hev; [|discriminate].
  destruct (negb _); [discriminate|].
  apply findEvent_hasEvent in Hev as [_ ->].
  destruct (removeEvent eventId st) as [st'|] eqn:Hrm; [|discriminate].
  intros _. now apply removeEvent_Ok in Hrm.
Qed.

(** A check-in keeps every participant row's identifier, event and identity
    number. *)
Lemma checkin_keeps_keys (st : Store) (account : User.t) (b : Checkin.body)
    (clk : Clock) (q : Participant.t) :
  reachable st ->
  In q (participants st) ->
  exists q', In q' (participants (fst (checkin st account b clk)))
             /\ Participant.id q' = Participant.id q
             /\ personKey q' = personKey q.
Proof.
  intros Hr Hq.
  assert (Hres : forall f s1 p, resolveParticipant b f st = Ok (s1, p) ->
                   exists q', In q' (participants s1)
                              /\ Participant.id q' = Participant.id q
                              /\ personKey q' = personKey q).
  { intros f s1 p Hres.
    apply (resolveParticipant_keys _ _ _ _ _ (reachable_ids _ Hr)) in Hres
      as [_ Hcase].
    destruct (findParticipant _ _ st).
    - assert (Hin : In (Participant.id q, personKey q)
                      (map (fun q => (Participant.id q, personKey q)) (participants s1))).
      { rewrite Hcase. apply in_map_iff. eauto. }
      apply in_map_iff in Hin as [q' [Heq Hq']].
      exists q'. split; [exact Hq'|].
      split; [exact (f_equal fst Heq) | exact (f_equal snd Heq)].
    - destruct Hcase as [-> _]. exists q. rewrite in_app_iff. auto. }
  destruct (checkin_cases st account b clk)
    as [[-> _]|(f & s1 & p & _ & Hok & [[-> _]|Hs])]; [eauto | eauto |].
  destruct (checkin st account b clk) as [st1 r] eqn:Hc. cbn [fst snd] in *.
  destruct (checkin_created _ _ _ _ _ _ Hc Hs)
    as (f' & event & s1' & p' & log & _ & _ & _ & Hres' & _ & Hins & _).
  apply insertCheckInLog_Ok in Hins as (_ & _ & _ & _ & _ & -> & _).
  eauto.
Qed.

Lemma checkin_logs (st : Store) (account : User.t) (b : Checkin.body)
    (clk : Clock) (l : CheckInLog.t) :
  In l (checkInLogs st) -> In l (checkInLogs (fst (checkin st account b clk))).
Proof.
  intros Hl.
  destruct (checkin_cases st account b clk)
    as [[-> _]|(f & s1 & p & _ & Hres & [[-> _]|Hs])]; [exact Hl | | ].
  - apply resolveParticipant_Ok in Hres as (_ & _ & -> & _). exact Hl.
  - destruct (checkin st account b clk) as [st1 r] eqn:Hc. cbn [fst snd] in *.
    destruct (checkin_created _ _ _ _ _ _ Hc Hs)
      as (f' & event & s1' & p' & log & _ & _ & _ & Hres' & _ & Hins & _).
    apply resolveParticipant_Ok in Hres' as (_ & _ & Hls1 & _).
    apply insertCheckInLog_Ok in Hins as (_ & _ & _ & _ & _ & _ & -> & _).
    rewrite Hls1, in_app_iff. now left.
Qed.

Lemma participant_blocks_delete (st : Store) (p : Participant.t) :
  In p (participants st) ->
  existsb (fun q => Participant.eventId q =? Participant.eventId p)
    (participants st) = true.
Proof.
  intros Hp. apply existsb_exists. exists p. split; [exact Hp | apply N.eqb_refl].
Qed.

(** One request keeps an event that has a participant. *)
Lemma serve_keeps_event (st : Store) (r : Request) (e : uuid) (event : Event.t) :
  reachable st ->
  (exists p, In p (participants st) /\ Participant.eventId p = e) ->
  findEvent e st = Some event ->
  (exists p, In p (participants (fst (serve st r))) /\ Participant.eventId p = e)
  /\ findEvent e (fst (serve st r)) = Some event.
Proof.
  intros Hr (p & Hp & He) Hev.
  destruct r as [account b|account eid|account b clk]; cbn.
  - destruct (createEvent_store st account b)
      as [->|(x & _ & _ & _ & _ & Hevs & Hps & _)]; [eauto|].
    split; [rewrite Hps; eauto|].
    unfold findEvent. rewrite Hevs. now apply find_app_some.
  - destruct eid as [eid|t];
      [|rewrite (proj1 (deleteEvent_NotUuid st account t)); eauto].
    destruct (deleteEvent_store st account eid)
      as [->|(_ & Hnone & Hevs & Hps & _)]; [eauto|].
    split; [rewrite Hps; eauto|].
    unfold findEvent. rewrite Hevs, find_filter; [exact Hev|].
    intros x Hx. apply N.eqb_eq in Hx. apply negb_true_iff, N.eqb_neq.
    intros Heq. pose proof (participant_blocks_delete st p Hp) as Hblock.
    rewrite He, <- Hx, Heq in Hblock. congruence.
  - split.
    + destruct (checkin_keeps_keys st account b clk p Hr Hp) as (q & Hq & _ & Hk).
      exists q. split; [exact Hq|]. unfold personKey in Hk. congruence.
    + unfold findEvent. now rewrite checkin_events.
Qed.

(** Once a person has been checked in at an event, no request removes or
    changes the event: after any requests the event is found as it was,
    and a request to delete it is not answered 200. *)
Theorem event_with_participant_is_kept :
  forall (st : Store) (p : Participant.t) (event : Event.t) (rs : list Request)
         (account : User.t),
    reachable st ->
    In p (participants st) ->
    findEvent (Participant.eventId p) st = Some event ->
    findEvent (Participant.eventId p) (serveAll rs st) = Some event
    /\ status (snd (deleteEvent (serveAll rs st) account (Uuid (Participant.eventId p))))
       <> 200.
Proof.
  intros st p event rs account Hr Hp Hev.
  assert (H : (exists q, In q (participants (serveAll rs st))
                         /\ Participant.eventId q = Participant.eventId p)
              /\ findEvent (Participant.eventId p) (serveAll rs st) = Some event).
  { assert (Hstart : exists q, In q (participants st)
                               /\ Participant.eventId q = Participant.eventId p)
      by eauto.
    clear Hp. revert st Hr Hstart Hev.
    induction rs as [|r rs IH]; intros st Hr Hstart Hev; cbn; [auto|].
    destruct (serve_keeps_event st r _ event Hr Hstart Hev) as [Hstart' Hev'].
    apply IH; [now apply serve_reachable | exact Hstart' | exact Hev']. }
  destruct H as [(q & Hq & He) Hkept]. split; [exact Hkept|].
  intros H200. apply deleteEvent_200 in H200.
  pose proof (participant_blocks_delete _ q Hq) as Hblock.
  rewrite He in Hblock. congruence.
Qed.

Lemma event_with_participant_is_kept_witness :
  findEvent (Participant.eventId aminaRow)
    (serveAll [DeleteEvent owner (Uuid 1); PostCheckin clerk juma nextDay;
               DeleteEvent owner (Uuid 1)] stCheckedIn) = Some rallyEvent
  /\ status (snd (deleteEvent
                    (serveAll [DeleteEvent owner (Uuid 1); PostCheckin clerk juma nextDay;
                               DeleteEvent owner (Uuid 1)] stCheckedIn)
                    owner (Uuid (Participant.eventId aminaRow)))) <> 200.
Proof.
  apply (event_with_participant_is_kept stCheckedIn aminaRow rallyEvent
           [DeleteEvent owner (Uuid 1); PostCheckin clerk juma nextDay; DeleteEvent owner (Uuid 1)]
           owner).
  - exists opsCheckedIn. reflexivity.
  - cbn. now left.
  - reflexivity.
Defined.

Lemma served_serve (st : Store) (r : Request) :
  served st -> served (fst (serve st r)).
Proof.
  intros [rs <-]. exists (rs ++ [r]).
  unfold serveAll. now rewrite fold_left_app.
Qed.

Lemma serve_keeps_log (st : Store) (r : Request) (l : CheckInLog.t) :
  tidy st ->
  In l (checkInLogs st) -> In l (checkInLogs (fst (serve st r))).
Proof.
  intros [_ _ Hlog] Hl.
  destruct r as [account b|account eid|account b clk]; cbn.
  - destruct (createEvent_store st account b)
      as [->|(x & _ & _ & _ & _ & _ & _ & -> & _)]; exact Hl.
  - destruct eid as [eid|t];
      [|now rewrite (proj1 (deleteEvent_NotUuid st account t))].
    destruct (deleteEvent_store st account eid)
      as [->|(_ & Hnone & _ & _ & ->)]; [exact Hl|].
    apply filter_In. split; [exact Hl|].
    apply negb_true_iff, N.eqb_neq. intros Heq.
    destruct (Hlog l Hl) as (p & Hp & _ & He).
    pose proof (participant_blocks_delete st p Hp) as Hblock.
    rewrite He, Heq in Hblock. congruence.
  - now apply checkin_logs.
Qed.

(** The check-in logs only grow: a log the routes have written stays in the
    table, unchanged, whatever requests follow. *)
Theorem served_logs_are_kept :
  forall (st : Store) (l : CheckInLog.t) (rs : list Request),
    served st ->
    In l (checkInLogs st) ->
    In l (checkInLogs (serveAll rs st)).
Proof.
  intros st l rs. revert st.
  induction rs as [|r rs IH]; intros st Hs Hl; cbn; [exact Hl|].
  apply IH; [now apply served_serve|].
  apply serve_keeps_log; [apply served_tidy, Hs | exact Hl].
Qed.

Lemma served_logs_are_kept_witness :
  In firstLog
    (checkInLogs (serveAll [DeleteEvent owner (Uuid 1); PostCheckin clerk juma nextDay;
                            PostCheckin owner aminah nextDay] stCheckedIn)).
Proof.
  apply (served_logs_are_kept stCheckedIn firstLog
           [DeleteEvent owner (Uuid 1); PostCheckin clerk juma nextDay;
            PostCheckin owner aminah nextDay]).
  - exists [PostEvent owner rally; PostCheckin clerk amina dayD]. reflexivity.
  - cbn. now left.
Defined.

Lemma served_one_participant_per_person_witness :
  aminahRow = aminahRow.
Proof.
  apply (served_one_participant_per_person
           (serveAll [PostEvent owner rally; PostCheckin clerk amina dayD;
                      PostCheckin owner aminah nextDay] emptyStore)
           aminahRow aminahRow).
  - eexists. reflexivity.
  - cbn. now left.
  - cbn. now left.
  - reflexivity.
  - reflexivity.
Defined.

Lemma served_events_have_county_witness :
  (forall e, In e (events stCheckedIn) ->
             Event.eventName e <> "" /\ Event.county e <> "")
  /\ searchPlan stCheckedIn clerk lookup123
     <> Answer (reply 400 "Event must have a county to perform voter lookup").
Proof.
  apply (served_events_have_county stCheckedIn clerk lookup123).
  exists [PostEvent owner rally; PostCheckin clerk amina dayD]. reflexivity.
Defined.

(** ** Creating an event *)




(** * The earlier check-in route *)

Lemma legacy_find_map (g : Legacy.Participant.t -> bool)
    (h : Legacy.Participant.t -> Legacy.Participant.t)
    (l : list Legacy.Participant.t) :
  (forall x, In x l -> h x = x \/ (g x = false /\ g (h x) = false)) ->
  find g (map h l) = find g l.
Proof.
  induction l as [|x l IH]; cbn; intros H; [reflexivity|].
  destruct (H x (or_introl eq_refl)) as [->|[-> ->]]; rewrite IH; auto.
Qed.

Lemma legacy_update_ids (i : uuid) (p : Legacy.Participant.t)
    (ps : list Legacy.Participant.t) :
  Legacy.Participant.id p = i ->
  map Legacy.Participant.id
      (map (fun q => if Legacy.Participant.id q =? i then p else q) ps)
  = map Legacy.Participant.id ps.
Proof.
  intros Hp. induction ps as [|q ps IH]; cbn; [reflexivity|].
  rewrite IH. f_equal.
  destruct (Legacy.Participant.id q =? i) eqn:E; [|reflexivity].
  apply N.eqb_eq in E. congruence.
Qed.

Lemma legacy_findParticipant_Some (eventId : uuid) (idNumber : string)
    (st : Legacy.Store) (p : Legacy.Participant.t) :
  Legacy.findParticipant eventId idNumber st = Some p ->
  In p (Legacy.participants st)
  /\ Legacy.Participant.eventId p = eventId
  /\ Legacy.Participant.idNumber p = idNumber.
Proof.
  intros H. apply find_some in H as [Hin Hp].
  apply andb_true_iff in Hp as [He Hi].
  apply N.eqb_eq in He. apply String.eqb_eq in Hi. auto.
Qed.

(** The earlier handler on a request that has its five fields, and on one
    that has not. *)
Lemma legacy_checkin_fields (st : Legacy.Store) (userId : uuid)
    (b : Checkin.body) (now : Z) (f : Checkin.fields) :
  Checkin.required b = Some f ->
  Legacy.checkin st userId b now
  = match Legacy.findEvent (Checkin.f_eventId f) st with
    | None => (st, Legacy.reply 404 "Event not found")
    | Some _ =>
        match Legacy.findParticipant (Checkin.f_eventId f) (Checkin.f_idNumber f) st with
        | Some existing =>
            if (Legacy.Participant.checkedIn existing =? 1)%Z
            then (st, Legacy.alreadyCheckedIn)
            else
              match Legacy.updateParticipant
                      (Legacy.checkInExisting b f userId now existing) st with
              | Err _ => (st, Legacy.reply 500 "Internal server error")
              | Ok st' =>
                  (st', {| Legacy.status := 200;
                           Legacy.message := Legacy.checkedInMessage;
                           Legacy.participant :=
                             Some (Legacy.Participant.stored
                                     (Legacy.checkInExisting b f userId now existing)) |})
              end
        | None =>
            match Legacy.insertParticipant
                    (Legacy.createParticipant b f userId now) st with
            | Err _ => (st, Legacy.reply 500 "Internal server error")
            | Ok (st', participant) =>
                (st', {| Legacy.status := 201;
                         Legacy.message := Legacy.checkedInMessage;
                         Legacy.participant := Some participant |})
            end
        end
    end.
Proof.
  intros H. unfold Legacy.checkin. now rewrite (required_present _ _ H), H.
Qed.

Lemma legacy_checkin_no_fields (st : Legacy.Store) (userId : uuid)
    (b : Checkin.body) (now : Z) :
  Checkin.required b = None ->
  fst (Legacy.checkin st userId b now) = st.
Proof.
  intros H. unfold Legacy.checkin. rewrite H. now destruct (Checkin.missing b).
Qed.

(** One request of the earlier route keeps the store well formed, keeps the
    events, and keeps a row that is checked in as the row found under its
    event and identity number. *)
Lemma legacy_checkin_keeps (st : Legacy.Store) (userId : uuid)
    (b : Checkin.body) (now : Z) (p : Legacy.Participant.t) :
  legacyWf st ->
  Legacy.findParticipant (Legacy.Participant.eventId p)
    (Legacy.Participant.idNumber p) st = Some p ->
  Legacy.Participant.checkedIn p = 1%Z ->
  legacyWf (fst (Legacy.checkin st userId b now))
  /\ Legacy.events (fst (Legacy.checkin st userId b now)) = Legacy.events st
  /\ Legacy.findParticipant (Legacy.Participant.eventId p)
       (Legacy.Participant.idNumber p) (fst (Legacy.checkin st userId b now))
     = Some p.
Proof.
  intros [Hnd Hlt] Hp Hin1. pose proof Hp as Hp'.
  destruct (Checkin.required b) as [f|] eqn:Hreq;
    [rewrite (legacy_checkin_fields _ _ _ _ _ Hreq)
    |rewrite (legacy_checkin_no_fields _ _ _ _ Hreq); repeat split; auto].
  destruct (Legacy.findEvent _ st); [|cbn; repeat split; auto].
  destruct (Legacy.findParticipant (Checkin.f_eventId f) (Checkin.f_idNumber f) st)
    as [q|] eqn:Hq.
  - destruct (Legacy.Participant.checkedIn q =? 1)%Z eqn:Hq1;
      [cbn; repeat split; auto|].
    unfold Legacy.updateParticipant.
    destruct (negb (Legacy.Participant.columns_ok _)); [cbn; repeat split; auto|].
    destruct (negb (Legacy.hasEvent _ st)); [cbn; repeat split; auto|].
    unfold legacyWf.
    cbn [fst Legacy.participants Legacy.events Legacy.nextId
         Legacy.checkInExisting Legacy.Participant.id Legacy.Participant.stored].
    apply Z.eqb_neq in Hq1. pose proof Hq as Hq'.
    apply legacy_findParticipant_Some in Hq as (Hqin & Hqe & Hqi).
    split; [split|split; [reflexivity|]].
    + now rewrite legacy_update_ids.
    + intros x Hx.
      assert (Hid : In (Legacy.Participant.id x)
                      (map Legacy.Participant.id (Legacy.participants st))).
      { rewrite <- (legacy_update_ids (Legacy.Participant.id q)
                      (Legacy.Participant.stored
                         (Legacy.checkInExisting b f userId now q))) by reflexivity.
        now apply in_map. }
      apply in_map_iff in Hid as [y [<- Hy]]. auto.
    + unfold Legacy.findParticipant. cbn [Legacy.participants].
      rewrite legacy_find_map; [exact Hp|].
      intros x Hx.
      destruct (Legacy.Participant.id x =? Legacy.Participant.id q) eqn:E;
        [|now left].
      apply N.eqb_eq in E.
      assert (x = q)
        by (apply (NoDup_map_eq Legacy.Participant.id (Legacy.participants st)); auto).
      subst x. right. cbn [Legacy.checkInExisting Legacy.Participant.eventId
        Legacy.Participant.idNumber Legacy.Participant.stored].
      assert (Hne : (Legacy.Participant.eventId q =? Legacy.Participant.eventId p)
                    && (Legacy.Participant.idNumber q =? Legacy.Participant.idNumber p)%string
                    = false).
      { apply not_true_is_false. intros Hk.
        apply andb_true_iff in Hk as [He Hi].
        apply N.eqb_eq in He. apply String.eqb_eq in Hi.
        apply legacy_findParticipant_Some in Hp as (Hpin & _ & _).
        assert (Hsame : Legacy.findParticipant (Checkin.f_eventId f)
                          (Checkin.f_idNumber f) st = Some p).
        { rewrite <- Hqe, <- Hqi, He, Hi. exact Hp'. }
        congruence. }
      split; exact Hne.
  - unfold Legacy.insertParticipant.
    destruct (negb (Legacy.Participant.columns_ok _)); [cbn; repeat split; auto|].
    destruct (negb (Legacy.hasEvent _ st)); [cbn; repeat split; auto|].
    unfold legacyWf.
    cbn [fst Legacy.participants Legacy.events Legacy.nextId].
    split; [split|split; [reflexivity|]].
    + rewrite map_app. cbn.
      apply NoDup_app; [assumption | repeat constructor; intros [] |].
      intros i Hi [<-|[]].
      apply in_map_iff in Hi as [y [Hy Hyin]]. specialize (Hlt y Hyin). lia.
    + intros x Hx. apply in_app_iff in Hx as [Hx|[<-|[]]];
        [specialize (Hlt x Hx)|cbn]; lia.
    + unfold Legacy.findParticipant. cbn [Legacy.participants].
      now apply find_app_some.
Qed.

Lemma legacy_find_update (g : Legacy.Participant.t -> bool)
    (p p' : Legacy.Participant.t) (ps : list Legacy.Participant.t) :
  find g ps = Some p ->
  g p' = true ->
  find g (map (fun q => if Legacy.Participant.id q =? Legacy.Participant.id p
                        then p' else q) ps)
  = Some p'.
Proof.
  intros Hfind Hg.
  induction ps as [|x ps IH]; cbn in *; [discriminate|].
  destruct (Legacy.Participant.id x =? Legacy.Participant.id p) eqn:Ex.
  - now rewrite Hg.
  - destruct (g x) eqn:Gx; [|auto].
    injection Hfind as ->. rewrite N.eqb_refl in Ex. discriminate.
Qed.

(** A check-in of the earlier route that is answered 200 or 201 leaves the
    person's row checked in, in a well-formed store, with the event still
    there. *)
Lemma legacy_checkin_marks (st : Legacy.Store) (userId : uuid)
    (b : Checkin.body) (now : Z) (f : Checkin.fields) :
  legacyWf st ->
  Checkin.required b = Some f ->
  Legacy.status (snd (Legacy.checkin st userId b now)) = 200
  \/ Legacy.status (snd (Legacy.checkin st userId b now)) = 201 ->
  legacyWf (fst (Legacy.checkin st userId b now))
  /\ (exists event,
        Legacy.findEvent (Checkin.f_eventId f) (fst (Legacy.checkin st userId b now))
        = Some event)
  /\ exists p,
       Legacy.findParticipant (Checkin.f_eventId f) (Checkin.f_idNumber f)
         (fst (Legacy.checkin st userId b now)) = Some p
       /\ Legacy.Participant.checkedIn p = 1%Z.
Proof.
  intros [Hnd Hlt] Hreq. rewrite (legacy_checkin_fields _ _ _ _ _ Hreq).
  destruct (Legacy.findEvent _ st) as [event|] eqn:Hev;
    [|cbn; intros [H|H]; discriminate].
  destruct (Legacy.findParticipant _ _ st) as [q|] eqn:Hq.
  - destruct (Legacy.Participant.checkedIn q =? 1)%Z;
      [cbn; intros [H|H]; discriminate|].
    unfold Legacy.updateParticipant.
    destruct (negb (Legacy.Participant.columns_ok _));
      [cbn; intros [H|H]; discriminate|].
    destruct (negb (Legacy.hasEvent _ st)); [cbn; intros [H|H]; discriminate|].
    intros _. unfold legacyWf, Legacy.findEvent, Legacy.findParticipant.
    cbn [fst Legacy.participants Legacy.events Legacy.nextId
         Legacy.checkInExisting Legacy.Participant.id Legacy.Participant.stored].
    pose proof (legacy_findParticipant_Some _ _ _ _ Hq) as (Hqin & Hqe & Hqi).
    split; [split|split; [eauto|]].
    + now rewrite legacy_update_ids.
    + intros x Hx.
      assert (Hid : In (Legacy.Participant.id x)
                      (map Legacy.Participant.id (Legacy.participants st))).
      { rewrite <- (legacy_update_ids (Legacy.Participant.id q)
                      (Legacy.Participant.stored
                         (Legacy.checkInExisting b f userId now q))) by reflexivity.
        now apply in_map. }
      apply in_map_iff in Hid as [y [<- Hy]]. auto.
    + exists (Legacy.Participant.stored (Legacy.checkInExisting b f userId now q)).
      split; [|reflexivity].
      apply (legacy_find_update _ q); [exact Hq|].
      cbn. now rewrite Hqe, Hqi, N.eqb_refl, String.eqb_refl.
  - unfold Legacy.insertParticipant.
    destruct (negb (Legacy.Participant.columns_ok _));
      [cbn; intros [H|H]; discriminate|].
    destruct (negb (Legacy.hasEvent _ st)); [cbn; intros [H|H]; discriminate|].
    intros _. unfold legacyWf, Legacy.findEvent, Legacy.findParticipant.
    cbn [fst Legacy.participants Legacy.events Legacy.nextId].
    split; [split|split; [eauto|]].
    + rewrite map_app. cbn.
      apply NoDup_app; [assumption | repeat constructor; intros [] |].
      intros i Hi [<-|[]].
      apply in_map_iff in Hi as [y [Hy Hyin]]. specialize (Hlt y Hyin). lia.
    + intros x Hx. apply in_app_iff in Hx as [Hx|[<-|[]]];
        [specialize (Hlt x Hx)|cbn]; lia.
    + exists (Legacy.Participant.with_id (Legacy.nextId st)
                (Legacy.Participant.stored
                   (Legacy.createParticipant b f userId now))).
      split; [|reflexivity].
      apply find_app_new; [exact Hq|].
      cbn. now rewrite N.eqb_refl, String.eqb_refl.
Qed.

(** In the earlier route a person is checked in at an event once and for
    all: after a check-in that was answered 200 or 201, and after any
    further check-in requests, a request for the same event and identity
    number is answered 400, on whatever day and with whatever payload, and
    leaves the store as it was. *)
Theorem legacy_checked_in_once_and_for_all :
  forall (st : Legacy.Store) (u1 u2 : uuid) (b1 b2 : Checkin.body) (t1 t2 : Z)
         (f1 f2 : Checkin.fields) (rs : list LegacyRequest),
    legacyWf st ->
    Checkin.required b1 = Some f1 ->
    Legacy.status (snd (Legacy.checkin st u1 b1 t1)) = 200
    \/ Legacy.status (snd (Legacy.checkin st u1 b1 t1)) = 201 ->
    Checkin.required b2 = Some f2 ->
    Checkin.f_eventId f2 = Checkin.f_eventId f1 ->
    Checkin.f_idNumber f2 = Checkin.f_idNumber f1 ->
    Legacy.checkin (legacyServeAll rs (fst (Legacy.checkin st u1 b1 t1))) u2 b2 t2
    = (legacyServeAll rs (fst (Legacy.checkin st u1 b1 t1)), Legacy.alreadyCheckedIn).
Proof.
  intros st u1 u2 b1 b2 t1 t2 f1 f2 rs Hwf Hreq1 Hok Hreq2 He Hi.
  destruct (legacy_checkin_marks st u1 b1 t1 f1 Hwf Hreq1 Hok)
    as (Hwf1 & [event Hev] & p & Hp & Hin).
  set (st1 := fst (Legacy.checkin st u1 b1 t1)) in *.
  pose proof (legacy_findParticipant_Some _ _ _ _ Hp) as (_ & Hpe & Hpi).
  rewrite <- Hpe, <- Hpi in Hp.
  assert (H : legacyWf (legacyServeAll rs st1)
              /\ Legacy.events (legacyServeAll rs st1) = Legacy.events st1
              /\ Legacy.findParticipant (Legacy.Participant.eventId p)
                   (Legacy.Participant.idNumber p) (legacyServeAll rs st1) = Some p).
  { clearbody st1. clear Hev Hok. revert st1 Hwf1 Hp.
    induction rs as [|r rs IH]; intros st1 Hwf1 Hp; [cbn; auto|].
    change (legacyServeAll (r :: rs) st1)
      with (legacyServeAll rs (legacyServe st1 r)).
    destruct (legacy_checkin_keeps st1 (byUser r) (withBody r) (atTime r) p
                Hwf1 Hp Hin) as (Hwf2 & Hev2 & Hp2).
    change (fst (Legacy.checkin st1 (byUser r) (withBody r) (atTime r)))
      with (legacyServe st1 r) in Hwf2, Hev2, Hp2.
    destruct (IH _ Hwf2 Hp2) as (Hwf3 & Hev3 & Hp3).
    rewrite Hev2 in Hev3. auto. }
  destruct H as (_ & Hevs & Hfinal).
  rewrite (legacy_checkin_fields _ _ _ _ _ Hreq2), He, Hi.
  unfold Legacy.findEvent. rewrite Hevs. fold (Legacy.findEvent (Checkin.f_eventId f1) st1).
  rewrite Hev, <- Hpe, <- Hpi, Hfinal, Hin. reflexivity.
Qed.

(** The legacy route at the rally: Amina is checked in, Juma after her, and
    the next day her number is answered as already checked in. *)
Lemma legacy_checked_in_once_and_for_all_witness :
  Legacy.checkin
    (legacyServeAll [{| byUser := 101; withBody := juma; atTime := 1700000100000 |}]
       (fst (Legacy.checkin legacyRally 101 amina 1700000000000)))
    100 aminah 1700086400000
  = (legacyServeAll [{| byUser := 101; withBody := juma; atTime := 1700000100000 |}]
       (fst (Legacy.checkin legacyRally 101 amina 1700000000000)),
     Legacy.alreadyCheckedIn).
Proof.
  apply (legacy_checked_in_once_and_for_all legacyRally 101 100 amina aminah
           1700000000000 1700086400000 aminaFields aminahFields).
  - split; [constructor | intros p []].
  - reflexivity.
  - right. reflexivity.
  - reflexivity.
  - reflexivity.
  - reflexivity.
Defined.

(** ** The account routes *)

Lemma auth_updateAccount_Ok (a : Auth.Account.t) (ac ac' : Auth.Accounts) :
  Auth.updateAccount a ac = Ok ac' ->
  fitsOpt 500 (Auth.Account.refreshToken a) = true
  /\ Auth.accounts ac'
     = map (fun x => if Auth.Account.id x =? Auth.Account.id a
                     then Auth.Account.with_refreshToken (Auth.Account.refreshToken a) x
                     else x) (Auth.accounts ac)
  /\ Auth.nextAccountId ac' = Auth.nextAccountId ac.
Proof.
  unfold Auth.updateAccount.
  destruct (fitsOpt 500 (Auth.Account.refreshToken a)); cbn; [|discriminate].
  intros H. injection H as <-. auto.
Qed.

Lemma auth_insertAccount_Ok (a a' : Auth.Account.t) (ac ac' : Auth.Accounts) :
  Auth.insertAccount a ac = Ok (ac', a') ->
  a' = Auth.Account.with_id (Auth.nextAccountId ac) a
  /\ Auth.findByEmail (Auth.Account.email a) ac = None
  /\ Auth.accounts ac' = Auth.accounts ac ++ [a']
  /\ Auth.nextAccountId ac' = N.succ (Auth.nextAccountId ac).
Proof.
  unfold Auth.insertAccount.
  destruct (negb (Auth.Account.columns_ok a)); [discriminate|].
  destruct (existsb _ _) eqn:E; [discriminate|].
  intros H. injection H as <- <-. repeat split.
  apply find_existsb. exact E.
Qed.

(** The rows after an update are the rows before, apart from the token. *)
Lemma auth_update_In (a x' : Auth.Account.t) (ac ac' : Auth.Accounts) :
  Auth.updateAccount a ac = Ok ac' ->
  In x' (Auth.accounts ac') ->
  exists x token,
    In x (Auth.accounts ac) /\ x' = Auth.Account.with_refreshToken token x.
Proof.
  intros Hu Hin. apply auth_updateAccount_Ok in Hu as (_ & Hrows & _).
  rewrite Hrows in Hin. apply in_map_iff in Hin as (x & <- & Hx).
  destruct (Auth.Account.id x =? Auth.Account.id a).
  - exists x, (Auth.Account.refreshToken a). auto.
  - exists x, (Auth.Account.refreshToken x). split; [exact Hx|]. now destruct x.
Qed.

Lemma auth_update_emails (a : Auth.Account.t) (ac ac' : Auth.Accounts) :
  Auth.updateAccount a ac = Ok ac' ->
  map Auth.Account.email (Auth.accounts ac') = map Auth.Account.email (Auth.accounts ac)
  /\ map Auth.Account.id (Auth.accounts ac') = map Auth.Account.id (Auth.accounts ac).
Proof.
  intros Hu. apply auth_updateAccount_Ok in Hu as (_ & Hrows & _).
  rewrite Hrows, !map_map.
  split; apply map_ext; intros x;
    destruct (Auth.Account.id x =? Auth.Account.id a); reflexivity.
Qed.

Lemma auth_findByEmail_update (a : Auth.Account.t) (ac ac' : Auth.Accounts) (e : string) :
  Auth.updateAccount a ac = Ok ac' ->
  Auth.findByEmail e ac'
  = option_map (fun x => if Auth.Account.id x =? Auth.Account.id a
                         then Auth.Account.with_refreshToken (Auth.Account.refreshToken a) x
                         else x) (Auth.findByEmail e ac).
Proof.
  intros Hu. apply auth_updateAccount_Ok in Hu as (_ & Hrows & _).
  unfold Auth.findByEmail. rewrite Hrows. clear Hrows.
  induction (Auth.accounts ac) as [|x l IH]; cbn; [reflexivity|].
  destruct (Auth.Account.id x =? Auth.Account.id a) eqn:Ei; cbn;
    destruct (Auth.Account.email x =? e)%string; cbn; rewrite ?Ei; auto.
Qed.

Lemma auth_findById_update (a : Auth.Account.t) (ac ac' : Auth.Accounts) (i : uuid) :
  Auth.updateAccount a ac = Ok ac' ->
  Auth.findById i ac'
  = option_map (fun x => if Auth.Account.id x =? Auth.Account.id a
                         then Auth.Account.with_refreshToken (Auth.Account.refreshToken a) x
                         else x) (Auth.findById i ac).
Proof.
  intros Hu. apply auth_updateAccount_Ok in Hu as (_ & Hrows & _).
  unfold Auth.findById. rewrite Hrows. clear Hrows.
  induction (Auth.accounts ac) as [|x l IH]; cbn; [reflexivity|].
  destruct (Auth.Account.id x =? Auth.Account.id a) eqn:Ei; cbn;
    destruct (Auth.Account.id x =? i); cbn; rewrite ?Ei; auto.
Qed.

Lemma auth_find_In (g : Auth.Account.t -> bool) (l : list Auth.Account.t)
      (a : Auth.Account.t) :
  find g l = Some a -> In a l /\ g a = true.
Proof. apply find_some. Qed.


Lemma auth_update_wf (a : Auth.Account.t) (ac ac' : Auth.Accounts) :
  accountsWf ac -> Auth.updateAccount a ac = Ok ac' -> accountsWf ac'.
Proof.
  intros [He Hi Hf Hp] Hu.
  pose proof (auth_update_emails _ _ _ Hu) as [Hemails Hids].
  pose proof (auth_updateAccount_Ok _ _ _ Hu) as (_ & _ & Hnext).
  split.
  - now rewrite Hemails.
  - now rewrite Hids.
  - intros x' Hin. destruct (auth_update_In _ _ _ _ Hu Hin) as (x & token & Hx & ->).
    rewrite Hnext. exact (Hf x Hx).
  - intros x' Hin. destruct (auth_update_In _ _ _ _ Hu Hin) as (x & token & Hx & ->).
    exact (Hp x Hx).
Qed.

Lemma auth_insert_wf (a a' : Auth.Account.t) (ac ac' : Auth.Accounts) :
  accountsWf ac ->
  Auth.Account.role a = USER -> Auth.Account.adminId a = None ->
  Auth.insertAccount a ac = Ok (ac', a') -> accountsWf ac'.
Proof.
  intros [He Hi Hf Hp] Hrole Hadmin Hins.
  apply auth_insertAccount_Ok in Hins as (-> & Hnone & Hrows & Hnext).
  split; rewrite Hrows.
  - rewrite map_app. cbn. apply NoDup_app; [exact He | repeat constructor; auto | ].
    intros e Hin [<-|[]]. apply in_map_iff in Hin as (x & Hx & Hin).
    apply find_existsb in Hnone.
    assert (existsb (fun y => (Auth.Account.email y =? Auth.Account.email a)%string)
                    (Auth.accounts ac) = true) as Hex.
    { apply existsb_exists. exists x. split; [exact Hin|]. now apply String.eqb_eq. }
    unfold Auth.findByEmail in Hnone. congruence.
  - rewrite map_app. cbn. apply NoDup_app; [exact Hi | repeat constructor; auto | ].
    intros i Hin [<-|[]]. apply in_map_iff in Hin as (x & Hx & Hin).
    specialize (Hf x Hin). lia.
  - intros x Hin. rewrite Hnext. apply in_app_iff in Hin as [Hin|[<-|[]]].
    + specialize (Hf x Hin). lia.
    + cbn. lia.
  - intros x Hin. apply in_app_iff in Hin as [Hin|[<-|[]]]; [exact (Hp x Hin)|].
    cbn. auto.
Qed.

Lemma auth_updateAccount_fits (a : Auth.Account.t) (ac : Auth.Accounts) :
  fitsOpt 500 (Auth.Account.refreshToken a) = true ->
  exists ac', Auth.updateAccount a ac = Ok ac'.
Proof.
  intros H. unfold Auth.updateAccount. rewrite H. cbn. eauto.
Qed.

Lemma auth_signup_wf (u : Auth.Utils) (ac : Auth.Accounts) (b : Auth.SignupBody) :
  accountsWf ac -> accountsWf (fst (Auth.signup u ac b)).
Proof.
  intros Hwf. unfold Auth.signup.
  destruct (orNull (Auth.signupName b)) as [name|]; [|exact Hwf].
  destruct (orNull (Auth.signupEmail b)) as [email|]; [|exact Hwf].
  destruct (orNull (Auth.signupPassword b)) as [password|]; [|exact Hwf].
  destruct (Auth.findByEmail email ac); [exact Hwf|].
  destruct (Auth.insertAccount _ ac) as [[ac1 user]|e] eqn:Hins; [|exact Hwf].
  assert (accountsWf ac1) as Hwf1
    by (eapply auth_insert_wf; [exact Hwf | | | exact Hins]; reflexivity).
  destruct (Auth.updateAccount _ ac1) as [ac2|e] eqn:Hup; [|exact Hwf1].
  cbn. eapply auth_update_wf; eauto.
Qed.

Lemma auth_login_wf (u : Auth.Utils) (ac : Auth.Accounts) (b : Auth.LoginBody) :
  accountsWf ac -> accountsWf (fst (Auth.login u ac b)).
Proof.
  intros Hwf. unfold Auth.login.
  destruct (orNull (Auth.loginEmail b)) as [email|]; [|exact Hwf].
  destruct (orNull (Auth.loginPassword b)) as [password|]; [|exact Hwf].
  destruct (Auth.findByEmail email ac) as [user|]; [|exact Hwf].
  destruct (negb _); [exact Hwf|].
  destruct (Auth.updateAccount _ ac) as [ac'|e] eqn:Hup; [|exact Hwf].
  cbn. eapply auth_update_wf; eauto.
Qed.

Lemma auth_refresh_wf (u : Auth.Utils) (ac : Auth.Accounts) (token : option string) :
  accountsWf ac -> accountsWf (fst (Auth.refresh u ac token)).
Proof.
  intros Hwf. unfold Auth.refresh.
  destruct (orNull token) as [refreshToken|]; [|exact Hwf].
  destruct (Auth.verifyToken u refreshToken) as [decoded|]; [|exact Hwf].
  destruct (Auth.findById _ ac) as [user|]; [|exact Hwf].
  destruct (negb _); [exact Hwf|].
  destruct (Auth.updateAccount _ ac) as [ac'|e] eqn:Hup; [|exact Hwf].
  cbn. eapply auth_update_wf; eauto.
Qed.

Lemma auth_logout_wf (ac : Auth.Accounts) (user : Auth.Account.t) :
  accountsWf ac -> accountsWf (fst (Auth.logout ac user)).
Proof.
  intros Hwf. unfold Auth.logout.
  destruct (Auth.updateAccount _ ac) as [ac'|e] eqn:Hup; [|exact Hwf].
  cbn. eapply auth_update_wf; eauto.
Qed.

Lemma auth_built_wf (ac : Auth.Accounts) : Auth.built ac -> accountsWf ac.
Proof.
  induction 1.
  - split; cbn; [constructor | constructor | intros a [] | intros a []].
  - now apply auth_signup_wf.
  - now apply auth_login_wf.
  - now apply auth_refresh_wf.
  - now apply auth_logout_wf.
Qed.

(** No account that the account routes made can reach an event:
    [signup] stores the role [USER], no route writes [adminId], and so
    [checkEventAccess] denies the account every event and the list of
    events answers 403. *)
Theorem built_accounts_reach_no_event :
  forall (ac : Auth.Accounts) (a : Auth.Account.t) (st : Store) (event : Event.t),
    Auth.built ac ->
    In a (Auth.accounts ac) ->
    checkEventAccess event (Auth.Account.toUser a) = false
    /\ getEvents st (Auth.Account.toUser a)
       = Refused (reply 403 "User is not assigned to an admin").
Proof.
  intros ac a st event Hb Hin.
  destruct (wf_plain _ (auth_built_wf _ Hb) a Hin) as [Hrole Hadmin].
  unfold checkEventAccess, getEvents. cbn. rewrite Hrole, Hadmin. auto.
Qed.

(** Wanjiru after her signup, and the rally. *)
Lemma built_accounts_reach_no_event_witness :
  checkEventAccess rallyEvent (Auth.Account.toUser wanjiruAccount) = false
  /\ getEvents stRally (Auth.Account.toUser wanjiruAccount)
     = Refused (reply 403 "User is not assigned to an admin").
Proof.
  apply (built_accounts_reach_no_event signedUp wanjiruAccount stRally rallyEvent).
  - apply Auth.built_signup, Auth.built_empty.
  - left. reflexivity.
Defined.

(** In a table the account routes built, an email and an id each
    name one account. *)
Theorem built_accounts_one_per_email :
  forall (ac : Auth.Accounts) (a a' : Auth.Account.t),
    Auth.built ac ->
    In a (Auth.accounts ac) -> In a' (Auth.accounts ac) ->
    Auth.Account.email a = Auth.Account.email a'
    \/ Auth.Account.id a = Auth.Account.id a' ->
    a = a'.
Proof.
  intros ac a a' Hb Hin Hin' [He|Hi].
  - exact (NoDup_map_eq _ _ _ _ (wf_emails _ (auth_built_wf _ Hb)) Hin Hin' He).
  - exact (NoDup_map_eq _ _ _ _ (wf_ids _ (auth_built_wf _ Hb)) Hin Hin' Hi).
Qed.

Lemma built_accounts_one_per_email_witness : wanjiruAccount = wanjiruAccount.
Proof.
  apply (built_accounts_one_per_email signedUp wanjiruAccount wanjiruAccount).
  - apply Auth.built_signup, Auth.built_empty.
  - left. reflexivity.
  - left. reflexivity.
  - left. reflexivity.
Defined.

(** A signup answered 201: what was stored and what was sent. *)
Lemma auth_signup_201 (u : Auth.Utils) (ac : Auth.Accounts) (b : Auth.SignupBody) :
  Auth.status (snd (Auth.signup u ac b)) = 201 ->
  exists name email password,
    Auth.signupEmail b = Some email /\ email <> ""
    /\ Auth.signupPassword b = Some password
    /\ Auth.findByEmail email ac = None
    /\ Auth.user (snd (Auth.signup u ac b))
       = Some {| Auth.Account.id := Auth.nextAccountId ac;
                 Auth.Account.name := name; Auth.Account.email := email;
                 Auth.Account.password := Auth.hashPassword u password;
                 Auth.Account.role := USER;
                 Auth.Account.refreshToken :=
                   Some (Auth.generateRefreshToken u
                           {| Auth.TokenPayload.userId := Auth.nextAccountId ac;
                              Auth.TokenPayload.email := email;
                              Auth.TokenPayload.role := USER |});
                 Auth.Account.adminId := None |}
    /\ Auth.findByEmail email (fst (Auth.signup u ac b))
       = Auth.user (snd (Auth.signup u ac b)).
Proof.
  unfold Auth.signup.
  destruct (orNull (Auth.signupName b)) as [name|] eqn:Hn; [|discriminate].
  destruct (orNull (Auth.signupEmail b)) as [email|] eqn:He; [|discriminate].
  destruct (orNull (Auth.signupPassword b)) as [password|] eqn:Hp; [|discriminate].
  destruct (Auth.findByEmail email ac) eqn:Hfind; [discriminate|].
  destruct (Auth.insertAccount _ ac) as [[ac1 user]|e] eqn:Hins; [|discriminate].
  destruct (Auth.updateAccount _ ac1) as [ac2|e] eqn:Hup; [|discriminate].
  intros _. cbn [fst snd Auth.user].
  apply orNull_Some in He as [He He']. apply orNull_Some in Hp as [Hp _].
  apply auth_insertAccount_Ok in Hins as (-> & _ & Hrows & _).
  exists name, email, password. repeat split; auto.
  rewrite (auth_findByEmail_update _ _ _ email Hup).
  unfold Auth.findByEmail at 1. rewrite Hrows.
  rewrite (find_app_new _ _ _ Hfind) by (cbn; apply String.eqb_refl).
  cbn. now rewrite N.eqb_refl.
Qed.

(** After a signup the account logs in with the password it gave, and with
    no other: the login is answered 200, with the account and a new refresh
    token stored for it, exactly when [comparePassword] accepts the attempt
    against the hash the signup stored; otherwise it is answered 401 and
    the table is as the signup left it. *)
Theorem signup_then_login :
  forall (u u' : Auth.Utils) (ac : Auth.Accounts) (b : Auth.SignupBody)
         (email password attempt : string) (a : Auth.Account.t),
    Auth.signupEmail b = Some email ->
    Auth.signupPassword b = Some password ->
    Auth.status (snd (Auth.signup u ac b)) = 201 ->
    Auth.user (snd (Auth.signup u ac b)) = Some a ->
    attempt <> "" ->
    fits 500 (Auth.generateRefreshToken u' (Auth.payloadOf a)) = true ->
    let answer :=
      Auth.login u' (fst (Auth.signup u ac b))
        {| Auth.loginEmail := Some email; Auth.loginPassword := Some attempt |} in
    let a' :=
      Auth.Account.with_refreshToken
        (Some (Auth.generateRefreshToken u' (Auth.payloadOf a))) a in
    if Auth.comparePassword u' attempt (Auth.hashPassword u password)
    then
      snd answer
      = {| Auth.status := 200; Auth.message := "Login successful";
           Auth.accessToken := Some (Auth.generateAccessToken u' (Auth.payloadOf a));
           Auth.user := Some a';
           Auth.cookie :=
             Auth.SetRefreshToken (Auth.generateRefreshToken u' (Auth.payloadOf a)) |}
      /\ Auth.findByEmail email (fst answer) = Some a'
    else
      answer = (fst (Auth.signup u ac b), Auth.fail 401 "Invalid email or password").
Proof.
  intros u u' ac b email password attempt a He Hp H201 Hu Hattempt Hfits answer a'.
  destruct (auth_signup_201 _ _ _ H201)
    as (name & email0 & password0 & He0 & Hne & Hp0 & _ & Huser & Hfind).
  rewrite He in He0. injection He0 as <-. rewrite Hp in Hp0. injection Hp0 as <-.
  rewrite Hu in Hfind, Huser. injection Huser as Ha.
  assert (Auth.Account.password a = Auth.hashPassword u password) as Hpw
    by (rewrite Ha; reflexivity).
  subst answer. unfold Auth.login. cbn [Auth.loginEmail Auth.loginPassword].
  rewrite (proj2 (orNull_Some (Some email) email)) by auto.
  rewrite (proj2 (orNull_Some (Some attempt) attempt)) by auto.
  rewrite Hfind, Hpw.
  destruct (Auth.comparePassword u' attempt (Auth.hashPassword u password));
    cbn [negb]; [|reflexivity].
  destruct (auth_updateAccount_fits a' (fst (Auth.signup u ac b)) Hfits) as [ac' Hup].
  fold a'. rewrite Hup. cbn [fst snd]. split; [reflexivity|].
  rewrite (auth_findByEmail_update _ _ _ email Hup), Hfind. cbn.
  now rewrite N.eqb_refl.
Qed.

(** Wanjiru signs up and logs in with her password. *)
Lemma signup_then_login_witness :
  snd (Auth.login (utilsIssuing "refresh-2") signedUp wanjiruLogin)
  = {| Auth.status := 200; Auth.message := "Login successful";
       Auth.accessToken := Some "access";
       Auth.user := Some (Auth.Account.with_refreshToken (Some "refresh-2") wanjiruAccount);
       Auth.cookie := Auth.SetRefreshToken "refresh-2" |}
  /\ Auth.findByEmail "wanjiru@example.org"
       (fst (Auth.login (utilsIssuing "refresh-2") signedUp wanjiruLogin))
     = Some (Auth.Account.with_refreshToken (Some "refresh-2") wanjiruAccount).
Proof.
  apply (signup_then_login (utilsIssuing "refresh-1") (utilsIssuing "refresh-2")
           Auth.emptyAccounts wanjiru "wanjiru@example.org" "s3cret" "s3cret"
           wanjiruAccount).
  - reflexivity.
  - reflexivity.
  - reflexivity.
  - reflexivity.
  - discriminate.
  - reflexivity.
Defined.

(** After a logout no refresh token of the account is accepted: a refresh
    with a token that verifies as the account is answered 401 and changes
    nothing. *)
Theorem logout_then_refresh_refused :
  forall (u : Auth.Utils) (ac : Auth.Accounts) (account : Auth.Account.t)
         (token : string),
    (forall decoded, Auth.verifyToken u token = Some decoded ->
                     Auth.TokenPayload.userId decoded = Auth.Account.id account) ->
    Auth.status (snd (Auth.logout ac account)) = 200
    /\ fst (Auth.refresh u (fst (Auth.logout ac account)) (Some token))
       = fst (Auth.logout ac account)
    /\ Auth.status (snd (Auth.refresh u (fst (Auth.logout ac account)) (Some token)))
       = 401.
Proof.
  intros u ac account token Hverify.
  destruct (auth_updateAccount_fits (Auth.Account.with_refreshToken None account) ac
              eq_refl) as [ac' Hup].
  unfold Auth.logout. rewrite Hup. cbn [fst snd Auth.status].
  split; [reflexivity|].
  unfold Auth.refresh.
  destruct (orNull (Some token)) as [refreshToken|] eqn:Ht; [|auto].
  apply orNull_Some in Ht as [Ht _]. injection Ht as <-.
  destruct (Auth.verifyToken u token) as [decoded|] eqn:Hd; [|auto].
  rewrite (Hverify decoded eq_refl).
  rewrite (auth_findById_update _ _ _ (Auth.Account.id account) Hup).
  destruct (Auth.findById (Auth.Account.id account) ac) as [x|] eqn:Hx; [|auto].
  apply auth_find_In in Hx as [_ Hx].
  cbn. rewrite Hx. cbn. auto.
Qed.

(** Wanjiru logs out; the token of her signup is refused. *)
Lemma logout_then_refresh_refused_witness :
  Auth.status (snd (Auth.logout signedUp wanjiruAccount)) = 200
  /\ fst (Auth.refresh (utilsIssuing "refresh-2")
            (fst (Auth.logout signedUp wanjiruAccount)) (Some "refresh-1"))
     = fst (Auth.logout signedUp wanjiruAccount)
  /\ Auth.status (snd (Auth.refresh (utilsIssuing "refresh-2")
                         (fst (Auth.logout signedUp wanjiruAccount))
                         (Some "refresh-1")))
     = 401.
Proof.
  apply (logout_then_refresh_refused (utilsIssuing "refresh-2") signedUp
           wanjiruAccount "refresh-1").
  intros decoded H. cbn in H. injection H as <-. reflexivity.
Defined.

(** A refresh answered 200: the account, and what was stored. *)
Lemma auth_refresh_200 (u : Auth.Utils) (ac : Auth.Accounts) (token : string) :
  Auth.status (snd (Auth.refresh u ac (Some token))) = 200 ->
  exists decoded user,
    Auth.verifyToken u token = Some decoded
    /\ Auth.findById (Auth.TokenPayload.userId decoded) ac = Some user
    /\ Auth.Account.refreshToken user = Some token
    /\ Auth.updateAccount
         (Auth.Account.with_refreshToken
            (Some (Auth.generateRefreshToken u (Auth.payloadOf user))) user) ac
       = Ok (fst (Auth.refresh u ac (Some token)))
    /\ Auth.cookie (snd (Auth.refresh u ac (Some token)))
       = Auth.SetRefreshToken (Auth.generateRefreshToken u (Auth.payloadOf user)).
Proof.
  unfold Auth.refresh.
  destruct (orNull (Some token)) as [refreshToken|] eqn:Ht; [|discriminate].
  apply orNull_Some in Ht as [Ht _]. injection Ht as <-.
  destruct (Auth.verifyToken u token) as [decoded|] eqn:Hd; [|discriminate].
  destruct (Auth.findById _ ac) as [user|] eqn:Hfind; [|discriminate].
  destruct (negb _) eqn:Hsame; [discriminate|].
  destruct (Auth.updateAccount _ ac) as [ac'|e] eqn:Hup; [|discriminate].
  intros _. exists decoded, user. cbn [fst snd Auth.cookie]. repeat split; auto.
  apply negb_false_iff in Hsame. unfold Auth.sameToken in Hsame.
  destruct (Auth.Account.refreshToken user) as [s|]; [|discriminate].
  apply String.eqb_eq in Hsame. now subst.
Qed.

(** A refresh rotates the token: once a refresh is answered 200, a refresh
    for the same account with any token but the one just sent in the
    cookie is answered 401 and changes nothing.  The token that was just
    used is such a token unless the generator repeated it. *)
Theorem refresh_rotates_the_token :
  forall (u u' : Auth.Utils) (ac : Auth.Accounts) (token other : string)
         (decoded decoded' : Auth.TokenPayload.t),
    Auth.status (snd (Auth.refresh u ac (Some token))) = 200 ->
    Auth.verifyToken u token = Some decoded ->
    Auth.verifyToken u' other = Some decoded' ->
    Auth.TokenPayload.userId decoded' = Auth.TokenPayload.userId decoded ->
    Auth.cookie (snd (Auth.refresh u ac (Some token))) <> Auth.SetRefreshToken other ->
    fst (Auth.refresh u' (fst (Auth.refresh u ac (Some token))) (Some other))
    = fst (Auth.refresh u ac (Some token))
    /\ Auth.status (snd (Auth.refresh u' (fst (Auth.refresh u ac (Some token)))
                           (Some other)))
       = 401.
Proof.
  intros u u' ac token other decoded decoded' H200 Hd Hd' Hid Hother.
  destruct (auth_refresh_200 _ _ _ H200) as (d & user & Hd0 & Hfind & _ & Hup & Hcookie).
  rewrite Hd in Hd0. injection Hd0 as <-.
  rewrite Hcookie in Hother.
  set (ac1 := fst (Auth.refresh u ac (Some token))) in *.
  unfold Auth.refresh.
  destruct (orNull (Some other)) as [refreshToken|] eqn:Ht; [|auto].
  apply orNull_Some in Ht as [Ht _]. injection Ht as <-.
  rewrite Hd', Hid, (auth_findById_update _ _ _ _ Hup), Hfind.
  cbn. rewrite N.eqb_refl. cbn.
  destruct (_ =? other)%string eqn:E; [|auto].
  apply String.eqb_eq in E. subst. now contradiction Hother.
Qed.

(** Wanjiru refreshes with the token of her signup; that token is then
    refused. *)
Lemma refresh_rotates_the_token_witness :
  fst (Auth.refresh (utilsIssuing "refresh-3")
         (fst (Auth.refresh (utilsIssuing "refresh-2") signedUp (Some "refresh-1")))
         (Some "refresh-1"))
  = fst (Auth.refresh (utilsIssuing "refresh-2") signedUp (Some "refresh-1"))
  /\ Auth.status
       (snd (Auth.refresh (utilsIssuing "refresh-3")
               (fst (Auth.refresh (utilsIssuing "refresh-2") signedUp (Some "refresh-1")))
               (Some "refresh-1")))
     = 401.
Proof.
  apply (refresh_rotates_the_token (utilsIssuing "refresh-2") (utilsIssuing "refresh-3")
           signedUp "refresh-1" "refresh-1"
           {| Auth.TokenPayload.userId := 1;
              Auth.TokenPayload.email := "wanjiru@example.org";
              Auth.TokenPayload.role := USER |}
           {| Auth.TokenPayload.userId := 1;
              Auth.TokenPayload.email := "wanjiru@example.org";
              Auth.TokenPayload.role := USER |}).
  - reflexivity.
  - reflexivity.
  - reflexivity.
  - reflexivity.
  - discriminate.
Defined.

(** The token a login sends is the one a refresh accepts: in a table whose
    accounts have distinct identifiers, after a login answered 200, a
    refresh with the token of its cookie is answered 200 with a new access
    token for the same account. *)
Theorem login_then_refresh :
  forall (u u' : Auth.Utils) (ac : Auth.Accounts) (b : Auth.LoginBody)
         (a : Auth.Account.t) (token : string) (decoded : Auth.TokenPayload.t),
    NoDup (map Auth.Account.id (Auth.accounts ac)) ->
    Auth.status (snd (Auth.login u ac b)) = 200 ->
    Auth.user (snd (Auth.login u ac b)) = Some a ->
    Auth.cookie (snd (Auth.login u ac b)) = Auth.SetRefreshToken token ->
    token <> "" ->
    Auth.verifyToken u' token = Some decoded ->
    Auth.TokenPayload.userId decoded = Auth.Account.id a ->
    fits 500 (Auth.generateRefreshToken u' (Auth.payloadOf a)) = true ->
    snd (Auth.refresh u' (fst (Auth.login u ac b)) (Some token))
    = {| Auth.status := 200; Auth.message := "Token refreshed successfully";
         Auth.accessToken := Some (Auth.generateAccessToken u' (Auth.payloadOf a));
         Auth.user := None;
         Auth.cookie :=
           Auth.SetRefreshToken (Auth.generateRefreshToken u' (Auth.payloadOf a)) |}.
Proof.
  intros u u' ac b a token decoded Hwf H200 Hu Hc Htoken Hd Hid Hfits.
  revert H200 Hu Hc. unfold Auth.login.
  destruct (orNull (Auth.loginEmail b)) as [email|]; [|discriminate].
  destruct (orNull (Auth.loginPassword b)) as [password|]; [|discriminate].
  destruct (Auth.findByEmail email ac) as [user|] eqn:Hfind; [|discriminate].
  destruct (negb _); [discriminate|].
  destruct (Auth.updateAccount _ ac) as [ac'|e] eqn:Hup; [|discriminate].
  cbn [fst snd Auth.status Auth.user Auth.cookie].
  intros _ Hu Hc. injection Hu as <-. injection Hc as Hc.
  cbn [Auth.Account.id Auth.Account.with_refreshToken] in Hid.
  apply auth_find_In in Hfind as [Hin _].
  assert (Auth.findById (Auth.Account.id user) ac = Some user) as Hbyid.
  { destruct (Auth.findById (Auth.Account.id user) ac) as [y|] eqn:Hy.
    - apply auth_find_In in Hy as [Hy Hy']. apply N.eqb_eq in Hy'.
      f_equal. exact (NoDup_map_eq _ _ _ _ Hwf Hy Hin Hy').
    - exfalso. unfold Auth.findById in Hy.
      apply (find_none _ _ Hy) in Hin. cbn in Hin. now rewrite N.eqb_refl in Hin. }
  unfold Auth.refresh.
  rewrite (proj2 (orNull_Some (Some token) token)) by auto.
  rewrite Hd, Hid, (auth_findById_update _ _ _ _ Hup), Hbyid.
  cbn [option_map Auth.Account.id Auth.Account.with_refreshToken].
  rewrite N.eqb_refl.
  cbn [Auth.Account.refreshToken Auth.Account.with_refreshToken Auth.sameToken].
  rewrite Hc, String.eqb_refl. cbn [negb].
  match goal with
  | |- context [Auth.updateAccount ?x ac'] =>
      destruct (auth_updateAccount_fits x ac' Hfits) as [ac2 Hup2]; rewrite Hup2
  end.
  reflexivity.
Qed.

(** Wanjiru logs in and refreshes with the token of the login. *)
Lemma login_then_refresh_witness :
  snd (Auth.refresh (utilsIssuing "refresh-3")
         (fst (Auth.login (utilsIssuing "refresh-2") signedUp wanjiruLogin))
         (Some "refresh-2"))
  = {| Auth.status := 200; Auth.message := "Token refreshed successfully";
       Auth.accessToken := Some "access"; Auth.user := None;
       Auth.cookie := Auth.SetRefreshToken "refresh-3" |}.
Proof.
  apply (login_then_refresh (utilsIssuing "refresh-2") (utilsIssuing "refresh-3")
           signedUp wanjiruLogin
           (Auth.Account.with_refreshToken (Some "refresh-2") wanjiruAccount)
           "refresh-2"
           {| Auth.TokenPayload.userId := 1;
              Auth.TokenPayload.email := "wanjiru@example.org";
              Auth.TokenPayload.role := USER |}).
  - cbn. constructor; [intros [] | constructor].
  - reflexivity.
  - reflexivity.
  - reflexivity.
  - discriminate.
  - reflexivity.
  - reflexivity.
  - reflexivity.
Defined.
